(** * LaBot man-in-the-middle bridge: a shallow embedding of
    [labot/mitm/bridge.py] and the properties of its handlers.

    The Python classes are modelled as records of their instance fields and
    their methods as functions in a small state-and-error monad; the bytes
    written to each socket and the lines written to the console are fields of
    the handler state, so that they can be observed.  [while] loops that the
    source does not bound are run on fuel; [time.sleep] and [logger.debug]
    calls have no counterpart (they change no field and send no byte). *)

From Stdlib Require Import ZArith List String Bool Lia.
From Stdlib Require Import PrimFloat.
From Stdlib Require Uint63.
From Stdlib.Strings Require Import Byte.
From Stdlib Require DecimalString.
Import ListNotations.
Local Open Scope string_scope.
Local Open Scope list_scope.
Local Open Scope Z_scope.

Set Implicit Arguments.
Set Warnings "-register-all,-inexact-float".

(** ** Sockets, bytes, exceptions *)

Definition bytes := list byte.

(** [coJeu] is the socket to the game client, [coSer] the socket to the
    server. *)
Inductive Conn : Type := coJeu | coSer.

Definition Conn_eqb (a b : Conn) : bool :=
  match a, b with
  | coJeu, coJeu | coSer, coSer => true
  | _, _ => false
  end.

(** [self.other = {coJeu: coSer, coSer: coJeu}] *)
Definition other (c : Conn) : Conn :=
  match c with coJeu => coSer | coSer => coJeu end.

Inductive Exn : Type :=
| AssertionError
| KeyError (k : string)
| IndexError
| TypeError
| OSError
| SinkError (what : string).

(** ** Parsed messages: the dictionaries built by [protocol.read] *)

Inductive Json : Type :=
| JNone
| JBool (b : bool)
| JNum (z : Z)
| JStr (s : string)
| JList (l : list Json)
| JDict (d : list (string * Json)).

Fixpoint assoc (k : string) (d : list (string * Json)) : option Json :=
  match d with
  | [] => None
  | (k', v) :: d' => if String.eqb k k' then Some v else assoc k d'
  end.

(** [j[k]] for a string key *)
Definition jget (k : string) (j : Json) : Exn + Json :=
  match j with
  | JDict d => match assoc k d with Some v => inr v | None => inl (KeyError k) end
  | _ => inl TypeError
  end.

(** [j[n]] for an integer index (only non-negative ones occur) *)
Definition jidx (n : nat) (j : Json) : Exn + Json :=
  match j with
  | JList l => match nth_error l n with Some v => inr v | None => inl IndexError end
  | _ => inl TypeError
  end.

(** [len(j)] *)
Definition jlen (j : Json) : Exn + nat :=
  match j with
  | JList l => inr (List.length l)
  | JDict d => inr (List.length d)
  | JStr s => inr (String.length s)
  | _ => inl TypeError
  end.

(** [j == s] for a string literal [s] *)
Definition jis (s : string) (j : Json) : bool :=
  match j with JStr t => String.eqb t s | _ => false end.

(** ** Frames: [labot.data.Msg] *)

Record Msg : Type := mkMsg {
  id : Z;
  data : bytes;
  count : option Z
}.

Definition set_count (c : Z) (m : Msg) : Msg :=
  mkMsg (id m) (data m) (Some c).

(** What [send_to_client] and [send_to_server] accept: raw bytes or a [Msg]. *)
Inductive Payload : Type :=
| Raw (b : bytes)
| Structured (m : Msg).

(** ** The collaborators that live outside [bridge.py] *)

(** The registry and codec of [labot.protocol] and [labot.data].
    [fromRaw from_client buf] is [Msg.fromRaw]: it returns the frame at the
    front of the buffer together with the buffer that is left, or [None]
    (leaving the buffer as it is) when no complete frame is there.
    [read ty d] is [protocol.read]: the parsed message and the position
    reached in [d], or the exception it raised. *)
Record Protocol : Type := {
  MsgType : Type;
  msg_from_id : Z -> option MsgType;
  read : MsgType -> bytes -> Exn + (Json * nat);
  fromRaw : bool -> bytes -> option (Msg * bytes);
  msg_bytes : Msg -> bytes;
  from_json : Json -> Msg
}.

(** [msg.data.remaining()] once [read] stopped at position [pos] *)
Definition remaining (d : bytes) (pos : nat) : nat := (List.length d - pos)%nat.

(** The world outside the process: the peer address of each socket, the
    outcome of an HTTP GET ([None] when it returns), [str] on values. *)
Record World : Type := {
  getpeername : Conn -> string;
  requests_get : string -> option Exn;
  py_str : Json -> string
}.

(** A [Dumper]: [dump m] is [None] when the call returns, the exception
    otherwise. *)
Record Dumper : Type := { dump : Msg -> option Exn }.

(** ** Console output *)

Inductive Line : Type :=
| LStr (s : string)
| LJson (j : Json)
| LMsg (m : Msg)
| LSorry (i : Z)            (* 'sorry, no ' + str(msg.id) *)
| LSent (d : bytes)         (* str(data) + 'sent !!!!' *)
| LBlank.

(** ** The monad of the handlers *)

Inductive Res (S A : Type) : Type :=
| Ret (a : A) (s : S)
| Raise (e : Exn) (s : S)
| OutOfFuel.
Arguments Ret {S A} a s.
Arguments Raise {S A} e s.
Arguments OutOfFuel {S A}.

Definition M (S A : Type) : Type := S -> Res S A.

Definition ret {S A} (a : A) : M S A := fun s => Ret a s.
Definition raise {S A} (e : Exn) : M S A := fun s => Raise e s.
Definition bind {S A B} (m : M S A) (k : A -> M S B) : M S B :=
  fun s => match m s with
           | Ret a s' => k a s'
           | Raise e s' => Raise e s'
           | OutOfFuel => OutOfFuel
           end.
Definition get {S} : M S S := fun s => Ret s s.
Definition modify {S} (f : S -> S) : M S unit := fun s => Ret tt (f s).
Definition lift {S A} (x : Exn + A) : M S A :=
  match x with inl e => raise e | inr a => ret a end.
Definition when {S} (b : bool) (m : M S unit) : M S unit :=
  if b then m else ret tt.

Declare Scope prog_scope.
Delimit Scope prog_scope with prog.
Notation "x <- m ;; k" := (bind m (fun x => k))
  (at level 61, m at next level, right associativity) : prog_scope.
Notation "m ;; k" := (bind m (fun _ => k))
  (at level 61, right associativity) : prog_scope.
Local Open Scope prog_scope.

(** [str.__add__] *)
Definition cat (a b : string) : string := String.append a b.

(** [direction(origin)] and [from_client(origin)] *)
Definition from_client (w : World) (origin : Conn) : bool :=
  String.eqb (getpeername w origin) "127.0.0.1".

Definition direction (w : World) (origin : Conn) : string :=
  if from_client w origin then "Client->Server" else "Server->Client".

(** ** The messages that the handlers build with [Msg.from_json] *)

Definition ChatClientMultiMessage (content : string) : Json :=
  JDict [("__type__", JStr "ChatClientMultiMessage");
         ("content", JStr content); ("channel", JNum 0)].

Definition ExchangeBidHouseSearchMessage (genId : Json) : Json :=
  JDict [("__type__", JStr "ExchangeBidHouseSearchMessage");
         ("genId", genId); ("follow", JBool true)].

Definition LeaveDialogRequestMessage : Json :=
  JDict [("__type__", JStr "LeaveDialogRequestMessage")].

Definition InteractiveUseRequestMessage : Json :=
  JDict [("__type__", JStr "InteractiveUseRequestMessage");
         ("elemId", JNum 522694); ("skillInstanceUid", JNum 136144973)].

(** ** [BridgeHandler.loop]

    The environment is a script: what each call of [select.select] returns
    (the ready sockets, each with what [recv(8192)] will give on it, and the
    sockets in an exceptional condition).  When the script is used up,
    [select] blocks for ever. *)

Record Select : Type := {
  rlist : list (Conn * (Exn + bytes));
  xlist : list Conn
}.

Inductive Event : Type :=
| Recvd (r : Conn) (d : bytes)        (* r.recv(8192) returned d *)
| Delivered (d : bytes) (r : Conn)    (* self.handle(d, origin=r) was called *)
| Closed (c : Conn).                  (* c.close() *)

Inductive Exit : Type :=
| Break                 (* xlist or not rlist *)
| Inactive              (* active = False after an empty read *)
| Uncaught (e : Exn).   (* an exception leaves the loop *)

Inductive Flow (S : Type) : Type :=
| Continue (s : S)
| Stop (why : Exit) (s : S)
| Hang.
Arguments Continue {S} s.
Arguments Stop {S} why s.
Arguments Hang {S}.

Definition is_nil {A} (l : list A) : bool :=
  match l with [] => true | _ => false end.

Section Loop.
Variable S : Type.
(** the policy: [self.handle(data, origin)] *)
Variable handle : bytes -> Conn -> M S unit.

(** [for r in rlist: ...] *)
Fixpoint for_rlist (rl : list (Conn * (Exn + bytes))) (s : S)
  : list Event * Flow S :=
  match rl with
  | [] => ([], Continue s)
  | (r, inl e) :: _ => ([], Stop (Uncaught e) s)
  | (r, inr d) :: rl' =>
      if is_nil d then ([Recvd r d], Stop Inactive s)
      else
        match handle d r s with
        | Ret _ s' =>
            let (l, f) := for_rlist rl' s' in
            (Recvd r d :: Delivered d r :: l, f)
        | Raise e s' => ([Recvd r d; Delivered d r], Stop (Uncaught e) s')
        | OutOfFuel => ([Recvd r d; Delivered d r], Hang)
        end
  end.

(** [while active: ...]; [Continue] as a result means that the script is
    used up and the loop is blocked in [select]. *)
Fixpoint while_active (script : list Select) (s : S) : list Event * Flow S :=
  match script with
  | [] => ([], Continue s)
  | sel :: script' =>
      if negb (is_nil (xlist sel)) || is_nil (rlist sel) then ([], Stop Break s)
      else
        match for_rlist (rlist sel) s with
        | (l, Continue s') =>
            let (l', f) := while_active script' s' in (l ++ l', f)
        | (l, f) => (l, f)
        end
  end.

(** [self.conns = [coJeu, coSer]] *)
Definition conns : list Conn := [coJeu; coSer].

(** [try: while ... finally: for c in conns: c.close()] *)
Definition loop (script : list Select) (s : S) : list Event * Flow S :=
  match while_active script s with
  | (l, Stop why s') => (l ++ map Closed conns, Stop why s')
  | (l, f) => (l, f)
  end.
End Loop.

(** ** [DummyBridgeHandler]: forward every chunk *)

Module Dummy.
Definition State : Type := list (Conn * bytes).

Definition handle (d : bytes) (origin : Conn) : M State unit :=
  modify (fun sent => sent ++ [(other origin, d)]).
End Dummy.

(** ** [MsgBridgeHandler]: forward, reassemble, parse, dispatch *)

Module Dispatch.
(** The instance fields: one [Buffer] per socket; [ext] stands for the
    fields a subclass adds. *)
Record State (U : Type) : Type := mk {
  buf_jeu : bytes;
  buf_ser : bytes;
  sent : list (Conn * bytes);
  console : list Line;
  ext : U
}.
Arguments mk {U}.

Section Handler.
Variable P : Protocol.
Variable U : Type.
(** the abstract method [handle_message(msg, origin)] *)
Variable handle_message : Json -> Conn -> M (State U) unit.

Definition init (u : U) : State U := mk [] [] [] [] u.

Definition buf (c : Conn) (s : State U) : bytes :=
  match c with coJeu => buf_jeu s | coSer => buf_ser s end.

Definition set_buf (c : Conn) (b : bytes) (s : State U) : State U :=
  match c with
  | coJeu => mk b (buf_ser s) (sent s) (console s) (ext s)
  | coSer => mk (buf_jeu s) b (sent s) (console s) (ext s)
  end.

Definition sendall (c : Conn) (b : bytes) : M (State U) unit :=
  modify (fun s => mk (buf_jeu s) (buf_ser s) (sent s ++ [(c, b)])
                      (console s) (ext s)).

Definition print (l : Line) : M (State U) unit :=
  modify (fun s => mk (buf_jeu s) (buf_ser s) (sent s)
                      (console s ++ [l]) (ext s)).

(** [Msg.fromRaw(self.buf[origin], from_client)] *)
Definition pull (origin : Conn) : M (State U) (option Msg) :=
  s <- get ;;
  match fromRaw P (Conn_eqb origin coJeu) (buf origin s) with
  | Some (m, rest) => modify (set_buf origin rest) ;; ret (Some m)
  | None => ret None
  end.

(** the branch [if msg.id in protocol.msg_from_id] *)
Definition on_known (origin : Conn) (m : Msg) (ty : MsgType P)
  : M (State U) unit :=
  r <- lift (read P ty (data m)) ;;
  if negb (remaining (data m) (snd r) =? 0)%nat then raise AssertionError
  else handle_message (fst r) origin.

(** [while msg is not None: ...] *)
Fixpoint while_msg (fuel : nat) (origin : Conn) (msg : option Msg)
  : M (State U) unit :=
  match msg with
  | None => ret tt
  | Some m =>
      match fuel with
      | O => fun _ => OutOfFuel
      | Datatypes.S fuel' =>
          match msg_from_id P (id m) with
          | Some ty => on_known origin m ty
          | None => print (LSorry (id m))
          end ;;
          msg' <- pull origin ;;
          while_msg fuel' origin msg'
      end
  end.

Definition handle (fuel : nat) (d : bytes) (origin : Conn)
  : M (State U) unit :=
  sendall (other origin) d ;;
  modify (fun s => set_buf origin (buf origin s ++ d) s) ;;
  msg <- pull origin ;;
  while_msg fuel origin msg.
End Handler.
End Dispatch.

(** ** [InjectorBridgeHandler]: forward, parse, keep the counters, inject *)

Module Injector.
Record State : Type := mk {
  buf_jeu : bytes;
  buf_ser : bytes;
  injected_to_client : Z;
  injected_to_server : Z;
  counter : Z;
  db : list Msg;
  sent : list (Conn * bytes);
  console : list Line
}.

Definition init : State := mk [] [] 0 0 0 [] [] [].

Definition buf (c : Conn) (s : State) : bytes :=
  match c with coJeu => buf_jeu s | coSer => buf_ser s end.

Definition set_buf (c : Conn) (b : bytes) (s : State) : State :=
  match c with
  | coJeu => mk b (buf_ser s) (injected_to_client s) (injected_to_server s)
                (counter s) (db s) (sent s) (console s)
  | coSer => mk (buf_jeu s) b (injected_to_client s) (injected_to_server s)
                (counter s) (db s) (sent s) (console s)
  end.

Definition set_injected_to_client (z : Z) (s : State) : State :=
  mk (buf_jeu s) (buf_ser s) z (injected_to_server s) (counter s) (db s)
     (sent s) (console s).

Definition set_injected_to_server (z : Z) (s : State) : State :=
  mk (buf_jeu s) (buf_ser s) (injected_to_client s) z (counter s) (db s)
     (sent s) (console s).

Definition set_counter (z : Z) (s : State) : State :=
  mk (buf_jeu s) (buf_ser s) (injected_to_client s) (injected_to_server s) z
     (db s) (sent s) (console s).

Definition set_db (l : list Msg) (s : State) : State :=
  mk (buf_jeu s) (buf_ser s) (injected_to_client s) (injected_to_server s)
     (counter s) l (sent s) (console s).

Definition sendall (c : Conn) (b : bytes) : M State unit :=
  modify (fun s => mk (buf_jeu s) (buf_ser s) (injected_to_client s)
                      (injected_to_server s) (counter s) (db s)
                      (sent s ++ [(c, b)]) (console s)).

Definition print (l : Line) : M State unit :=
  modify (fun s => mk (buf_jeu s) (buf_ser s) (injected_to_client s)
                      (injected_to_server s) (counter s) (db s) (sent s)
                      (console s ++ [l])).

(** [deque.append] on a deque of [maxlen = n]: the oldest entries leave *)
Definition deque_append (n : nat) (q : list Msg) (m : Msg) : list Msg :=
  let q' := q ++ [m] in skipn (List.length q' - n) q'.

Section Handler.
Variable P : Protocol.
Variable W : World.
Variable db_size : nat.
Variable dumper : option Dumper.

Definition send_to_client (d : Payload) : M State unit :=
  let b := match d with Structured m => msg_bytes P m | Raw b => b end in
  modify (fun s => set_injected_to_client (injected_to_client s + 1) s) ;;
  sendall coJeu b.

Definition send_to_server (d : Payload) : M State unit :=
  s <- get ;;
  let b := match d with
           | Structured m => msg_bytes P (set_count (counter s + 1) m)
           | Raw b => b
           end in
  modify (fun s => set_injected_to_server (injected_to_server s + 1) s) ;;
  sendall coSer b.

Definition ask_item_price (itemid : Z) : M State unit :=
  send_to_server
    (Structured (from_json P
       (JDict [("__type__", JStr "ExchangeBidHouseSearchMessage");
               ("follow", JBool true); ("genId", JNum itemid)]))).

Definition send_message (c : string) : M State unit :=
  send_to_server (Structured (from_json P (ChatClientMultiMessage c))).

Definition handle_message (m : Json) (o : Conn) : M State unit :=
  print (LStr (direction W o)) ;;
  print (LJson m) ;;
  print LBlank ;;
  print LBlank.

(** [Msg.fromRaw(self.buf[origin], from_client)] *)
Definition pull (origin : Conn) : M State (option Msg) :=
  s <- get ;;
  match fromRaw P (Conn_eqb origin coJeu) (buf origin s) with
  | Some (m, rest) => modify (set_buf origin rest) ;; ret (Some m)
  | None => ret None
  end.

(** the counter bookkeeping of lines 235-239; the result is [msg] as it
    is after [msg.count += ...] *)
Definition renumber (origin : Conn) (m : Msg) : M State Msg :=
  if Conn_eqb origin coJeu then
    match count m with
    | Some c =>
        s <- get ;;
        let m' := set_count (c + (injected_to_server s - injected_to_client s)) m in
        modify (set_counter (c + (injected_to_server s - injected_to_client s))) ;;
        ret m'
    | None => raise TypeError
    end
  else
    modify (fun s => set_counter (counter s + 1) s) ;; ret m.

(** what follows the assertion (lines 221-244): the bookkeeping, the
    history, the dumper, then [self.handle_message(parsedMsg, origin)] *)
Definition record_and_dispatch (origin : Conn) (m : Msg) (parsedMsg : Json)
  : M State unit :=
  m' <- renumber origin m ;;
  modify (fun s => set_db (deque_append db_size (db s) m') s) ;;
  match dumper with
  | Some d => match dump d m' with
              | Some e => raise e
              | None => ret tt
              end
  | None => ret tt
  end ;;
  handle_message parsedMsg origin.

(** the branch [if msg.id in protocol.msg_from_id], up to and including
    [self.handle_message(parsedMsg, origin)] *)
Definition on_known (origin : Conn) (m : Msg) (ty : MsgType P)
  : M State unit :=
  r <- lift (read P ty (data m)) ;;
  let rem := remaining (data m) (snd r) in
  if negb ((rem =? 0)%nat || (rem =? 48)%nat) then raise AssertionError
  else record_and_dispatch origin m (fst r).

(** [while msg is not None: ...]; the [else] branch leaves [msg] as
    it is *)
Fixpoint while_msg (fuel : nat) (d : bytes) (origin : Conn)
  (msg : option Msg) : M State unit :=
  match msg with
  | None => ret tt
  | Some m =>
      match fuel with
      | O => fun _ => OutOfFuel
      | Datatypes.S fuel' =>
          match msg_from_id P (id m) with
          | Some ty =>
              on_known origin m ty ;;
              msg' <- pull origin ;;
              while_msg fuel' d origin msg'
          | None =>
              print (LSent d) ;;
              while_msg fuel' d origin (Some m)
          end
      end
  end.

Definition handle (fuel : nat) (d : bytes) (origin : Conn) : M State unit :=
  sendall (other origin) d ;;
  modify (fun s => set_buf origin (buf origin s ++ d) s) ;;
  msg <- pull origin ;;
  while_msg fuel d origin msg.
End Handler.
End Injector.

(** ** [LucInjector]: the price-collecting automation *)

(** [l[i] = v] for an index in range (the only use, the refill loop, stays
    in range; out of range Python raises, here the list is left as it is) *)
Fixpoint list_set {A} (l : list A) (i : nat) (v : A) : list A :=
  match l, i with
  | [], _ => []
  | _ :: l', O => v :: l'
  | x :: l', Datatypes.S i' => x :: list_set l' i' v
  end.

(** [l.pop()]: the last element and the list without it *)
Definition pop {A} (l : list A) : option (A * list A) :=
  match rev l with
  | [] => None
  | x :: r => Some (x, rev r)
  end.

(** [self.script] holds "off" or "on" *)
Inductive Script : Type := off | on.

(** [a > b] on Python floats, which are IEEE 754 doubles *)
Definition float_gt (a b : float) : bool := PrimFloat.ltb b a.

Module Luc.
Record State : Type := mk {
  buf_jeu : bytes;
  buf_ser : bytes;
  injected_to_server : Z;
  counter : Z;
  injections : Z;
  script : Script;
  itemsleft : list (option Z);
  timer : float;
  sent : list (Conn * bytes);
  console : list Line;
  clock : nat                (* how many times time.time() was called *)
}.

Definition buf (c : Conn) (s : State) : bytes :=
  match c with coJeu => buf_jeu s | coSer => buf_ser s end.

Definition set_buf (c : Conn) (b : bytes) (s : State) : State :=
  match c with
  | coJeu => mk b (buf_ser s) (injected_to_server s) (counter s) (injections s)
                (script s) (itemsleft s) (timer s) (sent s) (console s) (clock s)
  | coSer => mk (buf_jeu s) b (injected_to_server s) (counter s) (injections s)
                (script s) (itemsleft s) (timer s) (sent s) (console s) (clock s)
  end.

Definition set_injected_to_server (z : Z) (s : State) : State :=
  mk (buf_jeu s) (buf_ser s) z (counter s) (injections s) (script s)
     (itemsleft s) (timer s) (sent s) (console s) (clock s).

Definition set_injections (z : Z) (s : State) : State :=
  mk (buf_jeu s) (buf_ser s) (injected_to_server s) (counter s) z (script s)
     (itemsleft s) (timer s) (sent s) (console s) (clock s).

Definition set_script (x : Script) (s : State) : State :=
  mk (buf_jeu s) (buf_ser s) (injected_to_server s) (counter s) (injections s)
     x (itemsleft s) (timer s) (sent s) (console s) (clock s).

Definition set_itemsleft (l : list (option Z)) (s : State) : State :=
  mk (buf_jeu s) (buf_ser s) (injected_to_server s) (counter s) (injections s)
     (script s) l (timer s) (sent s) (console s) (clock s).

Definition set_timer (t : float) (s : State) : State :=
  mk (buf_jeu s) (buf_ser s) (injected_to_server s) (counter s) (injections s)
     (script s) (itemsleft s) t (sent s) (console s) (clock s).

Definition sendall (c : Conn) (b : bytes) : M State unit :=
  modify (fun s =>
    mk (buf_jeu s) (buf_ser s) (injected_to_server s) (counter s) (injections s)
       (script s) (itemsleft s) (timer s) (sent s ++ [(c, b)]) (console s)
       (clock s)).

Definition print (l : Line) : M State unit :=
  modify (fun s =>
    mk (buf_jeu s) (buf_ser s) (injected_to_server s) (counter s) (injections s)
       (script s) (itemsleft s) (timer s) (sent s) (console s ++ [l]) (clock s)).

(** the message types whose echo is masked *)
Definition masked : list string :=
  ["GameMapMovementMessage"; "SetCharacterRestrictionsMessage";
   "GameContextRefreshEntityLookMessage"; "GameRolePlayShowActorMessage";
   "GameMapChangeOrientationMessage"; "UpdateMapPlayersAgressableStatusMessage";
   "GameContextRemoveElementMessage"; "ChatServerMessage";
   "ChatServerWithObjectMessage"].

Definition add_php : string :=
  "https://o-sens-propre.fr/dodo/add.php?token=456789tyhujizoefiuho678945&itemID=".

Section Handler.
Variable P : Protocol.
Variable W : World.
(** [time.time()]: the reading that the [n]-th call returns *)
Variable time : nat -> float.
(** [self.items], the configured worklist (a literal table in the
    source) *)
Variable items : list Z.

Definition time_time : M State float :=
  s <- get ;;
  modify (fun s =>
    mk (buf_jeu s) (buf_ser s) (injected_to_server s) (counter s)
       (injections s) (script s) (itemsleft s) (timer s) (sent s)
       (console s) (Datatypes.S (clock s))) ;;
  ret (time (clock s)).

(** [self.itemsleft = [None] * len(self.items)] and the loop
    [for i in range(0, len(self.items)): self.itemsleft[i] = self.items[i]] *)
Definition refill : list (option Z) :=
  fold_left (fun l i => list_set l i (Some (nth i items 0)))
            (seq 0 (List.length items))
            (repeat None (List.length items)).

(** [__init__] *)
Definition init : State :=
  mk [] [] 0 0 0 off (repeat None (List.length items)) (time O) [] [] 1.

Definition send_to_server (d : Payload) : M State unit :=
  b <- match d with
       | Structured m =>
           s <- get ;;
           let m' := set_count (counter s + 1) m in
           print (LStr "Injected : ") ;;
           print (LMsg m') ;;
           ret (msg_bytes P m')
       | Raw b => ret b
       end ;;
  modify (fun s => set_injected_to_server (injected_to_server s + 1) s) ;;
  sendall coSer b.

Definition send_message (c : string) : M State unit :=
  send_to_server (Structured (from_json P (ChatClientMultiMessage c))).

Definition json_of_item (x : option Z) : Json :=
  match x with Some z => JNum z | None => JNone end.

Definition ask_item_price (itemid : option Z) : M State unit :=
  send_to_server
  (Structured (from_json P (ExchangeBidHouseSearchMessage (json_of_item itemid)))).

Definition disconnect_hdv : M State unit :=
  send_to_server (Structured (from_json P LeaveDialogRequestMessage)).

Definition connect_hdv : M State unit :=
  send_to_server (Structured (from_json P InteractiveUseRequestMessage)).

(** [self.itemsleft.pop()] *)
Definition pop_itemsleft : M State (option Z) :=
  s <- get ;;
  match pop (itemsleft s) with
  | Some (x, l) => modify (set_itemsleft l) ;; ret x
  | None => raise IndexError
  end.

(** [handle_message], first statement (lines 352-368): the paced
    injection.  [datenow], [self.timer] and [diff] are Python floats: the
    subtraction and the comparison with the literal [0.8] are those of
    IEEE 754 doubles. *)
Definition pace : M State unit :=
  s <- get ;;
  match script s with
  | on =>
      if is_nil (itemsleft s) then modify (set_itemsleft refill)
      else
        datenow <- time_time ;;
        let diff := (datenow - timer s)%float in
        if float_gt diff 0.8 then
          (if (injections s mod 3 =? 2) then
             disconnect_hdv ;; connect_hdv
           else
             x <- pop_itemsleft ;;
             ask_item_price x ;;
             modify (set_timer datenow)) ;;
          modify (fun s => set_injections (injections s + 1) s)
        else ret tt
  | off => ret tt
  end.

(** the address that the price report requests: [prices] is
    [str(p0) + ',' + str(p1) + ',' + str(p2)] *)
Definition add_url (itemID p0 p1 p2 : Json) : string :=
  let prices :=
    cat (cat (cat (cat (py_str W p0) ",") (py_str W p1)) ",") (py_str W p2) in
  cat (cat (cat add_php (py_str W itemID)) "&prices=") prices.

(** the price report of lines 377-385 *)
Definition report (msg : Json) : M State unit :=
  descs <- lift (jget "itemTypeDescriptions" msg) ;;
  n <- lift (jlen descs) ;;
  if (0 <? n)%nat then
    print (LStr "--------------- GOT ONE ---------------") ;;
    d0 <- lift (jidx 0 descs) ;;
    itemID <- lift (jget "objectGID" d0) ;;
    pricesArray <- lift (jget "prices" d0) ;;
    print (LJson itemID) ;;
    print (LJson pricesArray) ;;
    p0 <- lift (jidx 0 pricesArray) ;;
    p1 <- lift (jidx 1 pricesArray) ;;
    p2 <- lift (jidx 2 pricesArray) ;;
    match requests_get W (add_url itemID p0 p1 p2) with
    | Some e => raise e
    | None => print (LStr "--------------- GOT ONE ---------------")
    end
  else ret tt.

(** the chat command of lines 389-399 *)
Definition command (msg : Json) : M State unit :=
  c <- lift (jget "content" msg) ;;
  print (LJson c) ;;
  if jis "stop" c then
    modify (set_script off) ;;
    send_message "stooooooop"
  else if jis "lessgo" c then
    modify (set_script on) ;;
    t <- time_time ;;
    modify (set_timer t) ;;
    modify (set_itemsleft refill) ;;
    send_message "gooooooooo"
  else ret tt.

(** [handle_message], second statement (lines 370-399) *)
Definition inspect (msg : Json) (origin : Conn) : M State unit :=
  ty <- lift (jget "__type__" msg) ;;
  if negb (existsb (fun t => jis t ty) masked)
     || String.eqb (direction W origin) "Client->Server" then
    print (LStr (direction W origin)) ;;
    print (LJson msg) ;;
    if jis "ExchangeTypesItemsExchangerDescriptionForUserMessage" ty then
      report msg
    else if jis "ChatClientMultiMessage" ty then
      command msg
    else ret tt
  else ret tt.

Definition handle_message (msg : Json) (origin : Conn) : M State unit :=
  pace ;; inspect msg origin.

(** [Msg.fromRaw(self.buf[origin], from_client)] *)
Definition pull (origin : Conn) : M State (option Msg) :=
  s <- get ;;
  match fromRaw P (Conn_eqb origin coJeu) (buf origin s) with
  | Some (m, rest) => modify (set_buf origin rest) ;; ret (Some m)
  | None => ret None
  end.

Definition on_known (origin : Conn) (m : Msg) (ty : MsgType P)
  : M State unit :=
  r <- lift (read P ty (data m)) ;;
  if negb (remaining (data m) (snd r) =? 0)%nat then raise AssertionError
  else handle_message (fst r) origin.

Fixpoint while_msg (fuel : nat) (origin : Conn) (msg : option Msg)
  : M State unit :=
  match msg with
  | None => ret tt
  | Some m =>
      match fuel with
      | O => fun _ => OutOfFuel
      | Datatypes.S fuel' =>
          match msg_from_id P (id m) with
          | Some ty => on_known origin m ty
          | None => print (LSorry (id m))
          end ;;
          msg' <- pull origin ;;
          while_msg fuel' origin msg'
      end
  end.

Definition handle (fuel : nat) (d : bytes) (origin : Conn) : M State unit :=
  sendall (other origin) d ;;
  modify (fun s => set_buf origin (buf origin s ++ d) s) ;;
  msg <- pull origin ;;
  while_msg fuel origin msg.
End Handler.
End Luc.

(** ** A concrete registry, codec and world, for running the handlers *)

Module Sample.
Definition byte_of_Z (z : Z) : byte :=
  match Byte.of_N (Z.to_N (z mod 256)) with
  | Some b => b
  | None => x00
  end.

(** big-endian integers *)
Definition be_decode (l : bytes) : Z :=
  fold_left (fun acc b => acc * 256 + Z.of_N (Byte.to_N b)) l 0.

Fixpoint be_encode (w : nat) (z : Z) : bytes :=
  match w with
  | O => []
  | Datatypes.S w' => be_encode w' (z / 256) ++ [byte_of_Z z]
  end.

(** [n] bytes from the front, when they are there *)
Definition take (n : nat) (l : bytes) : option (bytes * bytes) :=
  if (n <=? List.length l)%nat then Some (firstn n l, skipn n l) else None.

(** Modelled from the spec: [Msg.fromRaw] and [Msg.bytes] are in
    [labot.data], which is not part of the sources at hand.  Section 6 gives
    the frame as the message id, then the sequence counter on
    client-to-server frames only, then the length-prefixed payload, and
    section 4.2 has extraction consume from the front, or return nothing and
    leave the buffer untouched when the frame is not complete.  The widths
    chosen here are 2 bytes for the id, 4 for the counter and 2 for the
    length, big-endian. *)
Definition fromRaw (from_client : bool) (buf : bytes) : option (Msg * bytes) :=
  match take 2 buf with
  | None => None
  | Some (i, b1) =>
      match (if from_client then
               match take 4 b1 with
               | Some (c, b2) => Some (Some (be_decode c), b2)
               | None => None
               end
             else Some (None, b1)) with
      | None => None
      | Some (c, b2) =>
          match take 2 b2 with
          | None => None
          | Some (n, b3) =>
              match take (Z.to_nat (be_decode n)) b3 with
              | None => None
              | Some (d, rest) => Some (mkMsg (be_decode i) d c, rest)
              end
          end
      end
  end.

(** Modelled from the spec: [Msg.bytes], the inverse of [fromRaw] above,
    with the same widths. *)
Definition msg_bytes (m : Msg) : bytes :=
  be_encode 2 (id m)
  ++ match count m with Some c => be_encode 4 c | None => [] end
  ++ be_encode 2 (Z.of_nat (List.length (data m)))
  ++ data m.

(** Modelled from the spec: the registry of [labot.protocol] is not part of
    the sources at hand; section 3 gives an entry a name and a decoder.  An
    entry here decodes a payload of a fixed size into a dictionary that
    holds the name of its type. *)
Record Entry : Type := { name : string; size : nat }.

Definition msg_from_id (i : Z) : option Entry :=
  if i =? 182 then Some {| name := "BasicPingMessage"; size := 1 |}
  else if i =? 183 then Some {| name := "BasicPongMessage"; size := 1 |}
  else if i =? 861 then Some {| name := "ChatClientMultiMessage"; size := 2 |}
  else None.

Definition read (ty : Entry) (d : bytes) : Exn + (Json * nat) :=
  if (size ty <=? List.length d)%nat
  then inr (JDict [("__type__", JStr (name ty))], size ty)
  else inl IndexError.

(** Modelled from the spec: [Msg.from_json] encodes a structured message
    through the registry (section 6, [encode]); here the id is given by the
    name of the type and the payload holds the one field that matters. *)
Definition from_json (j : Json) : Msg :=
  match jget "__type__" j with
  | inr (JStr "ChatClientMultiMessage") =>
      mkMsg 861 (match jget "content" j with
                 | inr (JStr s) => list_byte_of_string s
                 | _ => []
                 end) None
  | inr (JStr "ExchangeBidHouseSearchMessage") =>
      mkMsg 5945 (match jget "genId" j with
                  | inr (JNum z) => be_encode 2 z
                  | _ => []
                  end) None
  | inr (JStr "LeaveDialogRequestMessage") => mkMsg 5501 [] None
  | inr (JStr "InteractiveUseRequestMessage") => mkMsg 5001 [] None
  | _ => mkMsg 0 [] None
  end.

Definition protocol : Protocol :=
  Build_Protocol msg_from_id read fromRaw msg_bytes from_json.

Definition py_str (j : Json) : string :=
  match j with
  | JNum z => DecimalString.NilEmpty.string_of_int (Z.to_int z)
  | JStr s => s
  | _ => "?"
  end.

(** the client connects from the loop-back address; HTTP requests return *)
Definition world : World :=
  Build_World
    (fun c => match c with coJeu => "127.0.0.1" | coSer => "34.252.21.81" end)
    (fun _ => None)
    py_str.

(** the same world with an unreachable reporting server *)
Definition offline : World :=
  Build_World (getpeername world) (fun _ => Some (SinkError "requests.get"))
              py_str.


(** a client-to-server frame and a server-to-client frame *)
Definition ping (c : Z) : bytes := msg_bytes (mkMsg 182 ["001"%byte] (Some c)).
Definition pong : bytes := msg_bytes (mkMsg 183 ["001"%byte] None).
(** a frame whose id the registry does not hold *)
Definition unknown : bytes := msg_bytes (mkMsg 999 ["001"%byte] None).
End Sample.

(** * Properties *)

(** ** The relay loop *)

Definition is_closed (c : Conn) (e : Event) : bool :=
  match e with Closed c' => Conn_eqb c c' | _ => false end.

(** how many times [c.close()] was called *)
Definition closes (c : Conn) (l : list Event) : nat :=
  List.length (filter (is_closed c) l).

Definition empty_read (e : Event) : bool :=
  match e with Recvd _ [] => true | _ => false end.

(** neither a [close] nor an empty read *)
Definition quiet (e : Event) : bool :=
  match e with
  | Closed _ => false
  | Recvd _ [] => false
  | _ => true
  end.

(** the log of a loop that has not left its body: quiet throughout, or
    quiet up to a final empty read when the exit is [Inactive] *)
Definition body_log {S} (l : list Event) (f : Flow S) : Prop :=
  match f with
  | Stop Inactive _ => exists l0 r, l = l0 ++ [Recvd r []] /\ forallb quiet l0 = true
  | _ => forallb quiet l = true
  end.

Section LoopFacts.
Variable S : Type.
Variable handle : bytes -> Conn -> M S unit.

Lemma body_log_cons (e : Event) (l : list Event) (f : Flow S) :
  quiet e = true -> body_log l f -> body_log (e :: l) f.
Proof.
  intros He. destruct f as [s|why s|]; simpl; try (intros ->; now rewrite He).
  destruct why; try (intros ->; now rewrite He).
  intros (l0 & r & -> & Hq). exists (e :: l0), r. simpl. now rewrite He, Hq.
Qed.

Lemma body_log_app (l l' : list Event) (f : Flow S) :
  forallb quiet l = true -> body_log l' f -> body_log (l ++ l') f.
Proof.
  induction l as [|e l IH]; simpl; auto.
  intros H Hl'. apply andb_true_iff in H as [He Hl].
  apply body_log_cons; auto.
Qed.

Lemma for_rlist_log (rl : list (Conn * (Exn + bytes))) (s : S) :
  body_log (fst (for_rlist handle rl s)) (snd (for_rlist handle rl s)).
Proof.
  revert s. induction rl as [|[r [e|d]] rl IH]; intros s; simpl; auto.
  destruct d as [|b d]; simpl.
  - exists [], r. auto.
  - destruct (handle (b :: d) r s) as [[] s'|e s'|]; simpl; auto.
    specialize (IH s'). destruct (for_rlist handle rl s') as [l f]. simpl in *.
    apply (body_log_cons (Recvd r (b :: d))); auto.
    apply (body_log_cons (Delivered (b :: d) r)); auto.
Qed.

Lemma while_active_log (script : list Select) (s : S) :
  body_log (fst (while_active handle script s))
           (snd (while_active handle script s)).
Proof.
  revert s. induction script as [|sel script IH]; intros s; simpl; auto.
  destruct (negb (is_nil (xlist sel)) || is_nil (rlist sel)); simpl; auto.
  pose proof (for_rlist_log (rlist sel) s) as H.
  destruct (for_rlist handle (rlist sel) s) as [l [s'|why s'|]]; simpl in *; auto.
  specialize (IH s'). destruct (while_active handle script s') as [l' f].
  simpl in *. now apply body_log_app.
Qed.

Lemma quiet_closes (c : Conn) (l : list Event) :
  forallb quiet l = true -> closes c l = O.
Proof.
  unfold closes. induction l as [|e l IH]; simpl; auto.
  intros H. apply andb_true_iff in H as [He Hl].
  destruct e; simpl in *; auto; discriminate.
Qed.

Lemma closes_app (c : Conn) (l l' : list Event) :
  closes c (l ++ l') = (closes c l + closes c l')%nat.
Proof. unfold closes. now rewrite filter_app, length_app. Qed.

Lemma body_log_closes (c : Conn) (l : list Event) (f : Flow S) :
  body_log l f -> closes c l = O.
Proof.
  destruct f as [s|why s|]; simpl; try apply quiet_closes.
  destruct why; try apply quiet_closes.
  intros (l0 & r & -> & Hq). rewrite closes_app, (quiet_closes c l0 Hq).
  reflexivity.
Qed.

(** an empty read is the last thing the body of the loop does *)
Lemma after_empty_read (l0 t l1 l2 : list Event) (x y : Event) :
  forallb quiet l0 = true -> empty_read y = true ->
  forallb (fun e => negb (empty_read e)) t = true ->
  l0 ++ x :: t = l1 ++ y :: l2 -> l2 = t.
Proof.
  intros Hq Hy Ht. revert l1.
  induction l0 as [|e l0 IH]; intros [|e1 l1]; simpl; intros E.
  - now inversion E.
  - inversion E; subst. clear E.
    exfalso. rewrite forallb_app in Ht. apply andb_true_iff in Ht as [_ Ht].
    simpl in Ht. rewrite Hy in Ht. discriminate.
  - inversion E; subst. simpl in Hq. destruct y as [r [|b d]|d r|c]; discriminate.
  - inversion E; subst. simpl in Hq. apply andb_true_iff in Hq as [_ Hq]. eauto.
Qed.

Lemma quiet_no_empty_read (l l1 l2 : list Event) (y : Event) :
  forallb (fun e => negb (empty_read e)) l = true ->
  empty_read y = true -> l = l1 ++ y :: l2 -> False.
Proof.
  intros H Hy ->. rewrite forallb_app in H. apply andb_true_iff in H as [_ H].
  simpl in H. rewrite Hy in H. discriminate.
Qed.

Lemma quiet_negb_empty (l : list Event) :
  forallb quiet l = true -> forallb (fun e => negb (empty_read e)) l = true.
Proof.
  induction l as [|e l IH]; simpl; auto. intros H.
  apply andb_true_iff in H as [He Hl]. rewrite IH by auto.
  destruct e as [r [|b d]|d r|c]; simpl in *; auto.
Qed.

(** the [finally] clause is reached from every way out of the body *)
Lemma loop_finally (script : list Select) (s s' : S) (l : list Event) (why : Exit) :
  while_active handle script s = (l, Stop why s') ->
  loop handle script s = (l ++ [Closed coJeu; Closed coSer], Stop why s').
Proof. unfold loop. now intros ->. Qed.

Lemma loop_stop_inv (script : list Select) (s s' : S) (l : list Event) (why : Exit) :
  loop handle script s = (l, Stop why s') ->
  exists l0, while_active handle script s = (l0, Stop why s')
             /\ l = l0 ++ [Closed coJeu; Closed coSer].
Proof.
  unfold loop. destruct (while_active handle script s) as [l0 [s0|why0 s0|]];
    intros E; inversion E; subst. eauto.
Qed.
End LoopFacts.

(** C5: every way out of the relay loop (a [break] on an exceptional or
    empty readiness set, [active = False] after an empty read, an exception
    raised by [recv] or by the policy's [handle]) calls [close] exactly once
    on each of the two connections, as the last thing the loop does; and
    once a read has returned no byte, the loop does nothing but these two
    [close] calls: no further chunk is delivered to the policy. *)
Theorem loop_releases_both_once
  (S : Type) (handle : bytes -> Conn -> M S unit)
  (script : list Select) (s s' : S) (log : list Event) (why : Exit) :
  loop handle script s = (log, Stop why s') ->
  closes coJeu log = 1%nat /\ closes coSer log = 1%nat
  /\ (exists l0, log = l0 ++ [Closed coJeu; Closed coSer])
  /\ (forall l1 r l2, log = l1 ++ Recvd r [] :: l2 ->
        l2 = [Closed coJeu; Closed coSer]).
Proof.
  intros H. apply loop_stop_inv in H as (l0 & Hw & ->).
  pose proof (while_active_log handle script s) as Hlog.
  rewrite Hw in Hlog. simpl fst in Hlog. simpl snd in Hlog.
  rewrite !closes_app, !(@body_log_closes _ _ _ _ Hlog).
  repeat split; eauto.
  intros l1 r l2 E.
  assert (Hc : forallb (fun e => negb (empty_read e)) [Closed coJeu; Closed coSer] = true)
    by reflexivity.
  destruct why; simpl in Hlog.
  - exfalso. refine (@quiet_no_empty_read _ _ _ (Recvd r []) _ eq_refl E).
    rewrite forallb_app, Hc, quiet_negb_empty; auto.
  - destruct Hlog as (l & r0 & -> & Hq).
    rewrite <- app_assoc in E. simpl in E.
    exact (@after_empty_read _ _ _ _ _ (Recvd r []) Hq eq_refl Hc E).
  - exfalso. refine (@quiet_no_empty_read _ _ _ (Recvd r []) _ eq_refl E).
    rewrite forallb_app, Hc, quiet_negb_empty; auto.
Qed.

(** the three ways out of the loop are taken *)
Lemma loop_break (S : Type) (handle : bytes -> Conn -> M S unit)
  (sel : Select) (script : list Select) (s : S) :
  negb (is_nil (xlist sel)) || is_nil (rlist sel) = true ->
  loop handle (sel :: script) s = ([Closed coJeu; Closed coSer], Stop Break s).
Proof. unfold loop. simpl. now intros ->. Qed.

Lemma loop_peer_closed (S : Type) (handle : bytes -> Conn -> M S unit)
  (r : Conn) (rl : list (Conn * (Exn + bytes))) (script : list Select) (s : S) :
  loop handle ({| rlist := (r, inr []) :: rl; xlist := [] |} :: script) s
  = ([Recvd r []; Closed coJeu; Closed coSer], Stop Inactive s).
Proof. reflexivity. Qed.


(** the end-to-end scenario: two reads on the client socket, then an empty
    read while the server socket is ready too *)
Definition relay_AB_CD : list Select :=
  [ {| rlist := [(coJeu, inr ["A"%byte; "B"%byte])]; xlist := [] |};
    {| rlist := [(coJeu, inr ["C"%byte; "D"%byte])]; xlist := [] |};
    {| rlist := [(coJeu, inr []); (coSer, inr ["E"%byte])]; xlist := [] |};
    {| rlist := [(coSer, inr ["F"%byte])]; xlist := [] |} ].

Lemma loop_releases_both_once_witness :
  loop Dummy.handle relay_AB_CD []
  = ([Recvd coJeu ["A"%byte; "B"%byte]; Delivered ["A"%byte; "B"%byte] coJeu;
      Recvd coJeu ["C"%byte; "D"%byte]; Delivered ["C"%byte; "D"%byte] coJeu;
      Recvd coJeu []; Closed coJeu; Closed coSer],
     Stop Inactive [(coSer, ["A"%byte; "B"%byte]); (coSer, ["C"%byte; "D"%byte])])
  /\ closes coJeu (fst (loop Dummy.handle relay_AB_CD [])) = 1%nat
  /\ closes coSer (fst (loop Dummy.handle relay_AB_CD [])) = 1%nat.
Proof.
  split; [reflexivity|].
  destruct (@loop_releases_both_once _ Dummy.handle relay_AB_CD [] _ _ _ eq_refl)
    as (H1 & H2 & _).
  split; [exact H1 | exact H2].
Defined.

(** ** Injection and the sequence counter *)

(** C2 as stated fails: an injection leaves [self.counter] where it was, so
    that two injections in a row carry the same counter. *)
Lemma injection_does_not_advance_counter :
  exists s',
    Injector.send_to_server Sample.protocol
      (Structured (mkMsg 861 [] None)) (Injector.set_counter 7 Injector.init)
    = Ret tt s'
    /\ Injector.sent s' = [(coSer, Sample.msg_bytes (mkMsg 861 [] (Some 8)))]
    /\ Injector.counter s' = 7
    /\ Injector.counter s' <> 7 + 1.
Proof. eexists. split; [cbv; reflexivity|]. cbv. repeat split. discriminate. Qed.

Lemma injector_send_to_server_msg (P : Protocol) (m : Msg) (s : Injector.State) :
  Injector.send_to_server P (Structured m) s
  = Ret tt (Injector.mk (Injector.buf_jeu s) (Injector.buf_ser s)
              (Injector.injected_to_client s)
              (Injector.injected_to_server s + 1)
              (Injector.counter s) (Injector.db s)
              (Injector.sent s
               ++ [(coSer, msg_bytes P (set_count (Injector.counter s + 1) m))])
              (Injector.console s)).
Proof. reflexivity. Qed.

Lemma luc_send_to_server_msg (P : Protocol) (m : Msg) (s : Luc.State) :
  Luc.send_to_server P (Structured m) s
  = Ret tt (Luc.mk (Luc.buf_jeu s) (Luc.buf_ser s)
              (Luc.injected_to_server s + 1)
              (Luc.counter s) (Luc.injections s) (Luc.script s)
              (Luc.itemsleft s) (Luc.timer s)
              (Luc.sent s
               ++ [(coSer, msg_bytes P (set_count (Luc.counter s + 1) m))])
              (Luc.console s
               ++ [LStr "Injected : "; LMsg (set_count (Luc.counter s + 1) m)])
              (Luc.clock s)).
Proof.
  unfold Luc.send_to_server, bind, get, modify, ret, Luc.print, Luc.sendall; simpl.
  now rewrite <- app_assoc.
Qed.

(** C2, amended: [send_to_server] with a [Msg], in [InjectorBridgeHandler]
    and in [LucInjector] alike, sends the message with counter
    [self.counter + 1] to the server and adds exactly 1 to
    [injected_to_server]; [self.counter] and every other field stay as they
    were (the counter moves only when a frame is observed). *)
Theorem send_to_server_numbers_injection (P : Protocol) (m : Msg) :
  (forall s : Injector.State,
     Injector.send_to_server P (Structured m) s
     = Ret tt (Injector.mk (Injector.buf_jeu s) (Injector.buf_ser s)
                 (Injector.injected_to_client s)
                 (Injector.injected_to_server s + 1)
                 (Injector.counter s) (Injector.db s)
                 (Injector.sent s
                  ++ [(coSer, msg_bytes P (set_count (Injector.counter s + 1) m))])
                 (Injector.console s)))
  /\ (forall s : Luc.State,
        Luc.send_to_server P (Structured m) s
        = Ret tt (Luc.mk (Luc.buf_jeu s) (Luc.buf_ser s)
                    (Luc.injected_to_server s + 1)
                    (Luc.counter s) (Luc.injections s) (Luc.script s)
                    (Luc.itemsleft s) (Luc.timer s)
                    (Luc.sent s
                     ++ [(coSer, msg_bytes P (set_count (Luc.counter s + 1) m))])
                    (Luc.console s
                     ++ [LStr "Injected : "; LMsg (set_count (Luc.counter s + 1) m)])
                    (Luc.clock s))).
Proof.
  split; intros s.
  - apply injector_send_to_server_msg.
  - apply luc_send_to_server_msg.
Qed.

(** ** What a handler leaves untouched *)

(** [m] does not change the observation [f] of the state, whether it
    returns or raises *)
Definition keeps {S A X} (f : S -> X) (m : M S A) : Prop :=
  forall s, match m s with
            | Ret _ s' | Raise _ s' => f s' = f s
            | OutOfFuel => True
            end.

Lemma keeps_ret {S A X} (f : S -> X) (a : A) : keeps f (ret a).
Proof. now intros s. Qed.

Lemma keeps_raise {S A X} (f : S -> X) (e : Exn) : keeps f (@raise S A e).
Proof. now intros s. Qed.

Lemma keeps_get {S X} (f : S -> X) : keeps f get.
Proof. now intros s. Qed.

Lemma keeps_lift {S A X} (f : S -> X) (x : Exn + A) : keeps f (lift x).
Proof. destruct x; now intros s. Qed.

Lemma keeps_modify {S X} (f : S -> X) (g : S -> S) :
  (forall s, f (g s) = f s) -> keeps f (modify g).
Proof. intros H s. apply H. Qed.

Lemma keeps_bind {S A B X} (f : S -> X) (m : M S A) (k : A -> M S B) :
  keeps f m -> (forall a, keeps f (k a)) -> keeps f (bind m k).
Proof.
  intros Hm Hk s. unfold bind. specialize (Hm s).
  destruct (m s) as [a s1|e s1|]; auto.
  specialize (Hk a s1). destruct (k a s1); congruence.
Qed.

(** one step of a monadic computation *)
Ltac run := cbv beta iota delta [bind modify get ret raise lift when].

Create HintDb keeps.
#[local] Hint Resolve keeps_ret keeps_raise keeps_get keeps_lift : keeps.

Ltac keeps_step :=
  first [ apply keeps_bind; [| intros ?]
        | apply keeps_modify; intros []; reflexivity
        | apply keeps_modify; intros ?; reflexivity
        | solve [auto with keeps] ].

Section InjectorFacts.
Variable P : Protocol.
Variable W : World.
Variable db_size : nat.
Variable dumper : option Dumper.

Lemma injector_pull_keeps_sent (origin : Conn) :
  keeps Injector.sent (Injector.pull P origin).
Proof.
  unfold Injector.pull. keeps_step; [keeps_step|].
  destruct (fromRaw P _ _) as [[m rest]|]; [|keeps_step].
  keeps_step; [|keeps_step].
  apply keeps_modify. intros s. now destruct origin.
Qed.

Lemma injector_on_known_keeps_sent (origin : Conn) (m : Msg) (ty : MsgType P) :
  keeps Injector.sent (Injector.on_known P W db_size dumper origin m ty).
Proof.
  unfold Injector.on_known, Injector.record_and_dispatch.
  keeps_step; [keeps_step|].
  destruct (negb _); [keeps_step|].
  keeps_step.
  { unfold Injector.renumber. destruct (Conn_eqb origin coJeu).
    - destruct (count m); [|keeps_step]. repeat keeps_step.
    - repeat keeps_step. }
  keeps_step; [keeps_step|].
  keeps_step.
  { destruct dumper as [d|]; [|keeps_step]. destruct (dump d _); keeps_step. }
  unfold Injector.handle_message, Injector.print. repeat keeps_step.
Qed.

Lemma injector_while_msg_keeps_sent (fuel : nat) (d : bytes) (origin : Conn)
  (msg : option Msg) :
  keeps Injector.sent (Injector.while_msg P W db_size dumper fuel d origin msg).
Proof.
  revert msg. induction fuel as [|fuel IH]; intros [m|]; simpl;
    try keeps_step; try (now intros s).
  destruct (msg_from_id P (id m)) as [ty|].
  - keeps_step; [apply injector_on_known_keeps_sent|].
    keeps_step; [apply injector_pull_keeps_sent | apply IH].
  - keeps_step; [|apply IH]. unfold Injector.print. keeps_step.
Qed.

(** whatever the frames in it, the chunk itself is what the other side
    receives, and nothing else *)
Lemma injector_handle_forwards_verbatim (fuel : nat) (d : bytes) (origin : Conn)
  (s : Injector.State) :
  match Injector.handle P W db_size dumper fuel d origin s with
  | Ret _ s' | Raise _ s' =>
      Injector.sent s' = Injector.sent s ++ [(other origin, d)]
  | OutOfFuel => True
  end.
Proof.
  unfold Injector.handle.
  set (rest := (_ ;; _ <- Injector.pull P origin ;; _)).
  assert (Hrest : keeps Injector.sent rest).
  { unfold rest. keeps_step.
    - apply keeps_modify. intros s0. now destruct origin.
    - keeps_step; [apply injector_pull_keeps_sent|].
      apply injector_while_msg_keeps_sent. }
  unfold bind at 1. unfold Injector.sendall, modify.
  specialize (Hrest (Injector.mk (Injector.buf_jeu s) (Injector.buf_ser s)
    (Injector.injected_to_client s) (Injector.injected_to_server s)
    (Injector.counter s) (Injector.db s)
    (Injector.sent s ++ [(other origin, d)]) (Injector.console s))).
  destruct (rest _); auto.
Qed.

(** a frame whose id is not in the registry is never left behind *)
Lemma injector_unknown_id_spins (fuel : nat) (d : bytes) (origin : Conn)
  (m : Msg) (s : Injector.State) :
  msg_from_id P (id m) = None ->
  Injector.while_msg P W db_size dumper fuel d origin (Some m) s = OutOfFuel.
Proof.
  intros H. revert s. induction fuel as [|fuel IH]; intros s; simpl; auto.
  rewrite H. unfold bind, Injector.print, modify. apply IH.
Qed.
End InjectorFacts.

Lemma injector_handle_unknown_first (P : Protocol) (W : World) (db_size : nat)
  (dumper : option Dumper) (fuel : nat) (d rest : bytes) (origin : Conn)
  (m : Msg) (s : Injector.State) :
  fromRaw P (Conn_eqb origin coJeu) (Injector.buf origin s ++ d) = Some (m, rest) ->
  msg_from_id P (id m) = None ->
  Injector.handle P W db_size dumper fuel d origin s = OutOfFuel.
Proof.
  intros Hraw Hid. unfold Injector.handle, Injector.pull, Injector.sendall. run.
  assert (E : forall s0 b, Injector.buf origin (Injector.set_buf origin b s0) = b)
    by (intros s0 b; now destruct origin).
  rewrite E.
  replace (Injector.buf origin _) with (Injector.buf origin s) by now destruct origin.
  rewrite Hraw. run. now apply injector_unknown_id_spins.
Qed.

(** one synthetic chat message between two genuine client frames that carry
    the counters 4 and 5 *)
Definition inject_between_frames : M Injector.State unit :=
  Injector.handle Sample.protocol Sample.world 100 None 10 (Sample.ping 4) coJeu ;;
  Injector.send_message Sample.protocol "hello" ;;
  Injector.handle Sample.protocol Sample.world 100 None 10 (Sample.ping 5) coJeu.

(** the sequence counter in a chunk that holds one client-to-server frame *)
Definition wire_counter (chunk : bytes) : option Z :=
  match Sample.fromRaw true chunk with
  | Some (m, _) => count m
  | None => None
  end.

(** C1 does not hold of [InjectorBridgeHandler.handle]: whatever the
    registry, the codec and the state, the only bytes that [handle] sends
    are the chunk as it was received, so a frame is never forwarded with a
    rewritten counter.  In the run above, after one injection
    ([injected_to_server = 1], [injected_to_client = 0]), the genuine client
    frame with counter 5 reaches the server with counter 5, not 5 + 1; the
    rewritten counter 6 is only kept in the handler ([self.counter] and the
    [Msg] put in [self.db]).  The server sees the counters 4, 5, 5. *)
Theorem genuine_frame_forwarded_with_original_counter :
  (forall (P : Protocol) (W : World) (db_size : nat) (dumper : option Dumper)
          (fuel : nat) (d : bytes) (origin : Conn) (s : Injector.State),
      match Injector.handle P W db_size dumper fuel d origin s with
      | Ret _ s' | Raise _ s' =>
          Injector.sent s' = Injector.sent s ++ [(other origin, d)]
      | OutOfFuel => True
      end)
  /\ exists s,
       inject_between_frames Injector.init = Ret tt s
       /\ Injector.injected_to_server s = 1
       /\ Injector.injected_to_client s = 0
       /\ map fst (Injector.sent s) = [coSer; coSer; coSer]
       /\ map (fun x => wire_counter (snd x)) (Injector.sent s)
          = [Some 4; Some 5; Some 5]
       /\ nth_error (Injector.sent s) 2 = Some (coSer, Sample.ping 5)
       /\ Injector.counter s = 6
       /\ map count (Injector.db s) = [Some 4; Some 6].
Proof.
  split; [intros; apply injector_handle_forwards_verbatim|].
  eexists. split; [vm_compute; reflexivity|]. vm_compute. repeat split.
Qed.

(** C3 does not hold of [InjectorBridgeHandler.handle]: when the first
    frame of what is in the buffer has an id that is not in the registry,
    the handler never returns, whatever the number of iterations it is
    given: the [else] branch prints and sleeps and leaves [msg] as it is, so
    the [while] condition stays true.  So it is on a chunk from the server
    that holds one frame of the unregistered type 999. *)
Theorem injector_spins_on_unknown_id :
  (forall (P : Protocol) (W : World) (db_size : nat) (dumper : option Dumper)
          (fuel : nat) (d rest : bytes) (origin : Conn) (m : Msg)
          (s : Injector.State),
      fromRaw P (Conn_eqb origin coJeu) (Injector.buf origin s ++ d)
      = Some (m, rest) ->
      msg_from_id P (id m) = None ->
      Injector.handle P W db_size dumper fuel d origin s = OutOfFuel)
  /\ (forall fuel : nat,
        Injector.handle Sample.protocol Sample.world 100 None fuel Sample.unknown
          coSer Injector.init = OutOfFuel).
Proof.
  split; [intros; eapply injector_handle_unknown_first; eassumption|].
  intros fuel.
  apply injector_handle_unknown_first
    with (rest := []) (m := mkMsg 999 ["001"%byte] None); reflexivity.
Qed.

(** ** Frames observed from the server *)

(** the frames that repeated calls of [Msg.fromRaw] take from a buffer, and
    what is left of the buffer when it returns [None] *)
Inductive drains (P : Protocol) (fc : bool) : bytes -> list Msg -> bytes -> Prop :=
| drains_done (b : bytes) :
    fromRaw P fc b = None -> drains P fc b [] b
| drains_frame (b b' rest : bytes) (m : Msg) (ms : list Msg) :
    fromRaw P fc b = Some (m, b') -> drains P fc b' ms rest ->
    drains P fc b (m :: ms) rest.

(** the frame is decoded: its id is in the registry, [protocol.read] returns,
    and the assertion of [InjectorBridgeHandler.handle] holds *)
Definition decoded (P : Protocol) (m : Msg) : Prop :=
  exists ty j pos,
    msg_from_id P (id m) = Some ty
    /\ read P ty (data m) = inr (j, pos)
    /\ (remaining (data m) pos = 0%nat \/ remaining (data m) pos = 48%nat).

(** the call [self.dumper.dump(m)], when there is a dumper, returns *)
Definition dumped (dumper : option Dumper) (m : Msg) : Prop :=
  match dumper with
  | Some d => dump d m = None
  | None => True
  end.

Section ServerFrames.
Variable P : Protocol.
Variable W : World.
Variable db_size : nat.
Variable dumper : option Dumper.

Lemma injector_on_known_from_server (m : Msg) (ty : MsgType P) (j : Json)
  (pos : nat) (s : Injector.State) :
  read P ty (data m) = inr (j, pos) ->
  remaining (data m) pos = 0%nat \/ remaining (data m) pos = 48%nat ->
  dumped dumper m ->
  Injector.on_known P W db_size dumper coSer m ty s
  = Ret tt (Injector.mk (Injector.buf_jeu s) (Injector.buf_ser s)
              (Injector.injected_to_client s) (Injector.injected_to_server s)
              (Injector.counter s + 1)
              (Injector.deque_append db_size (Injector.db s) m)
              (Injector.sent s)
              (Injector.console s
               ++ [LStr (direction W coSer); LJson j; LBlank; LBlank])).
Proof.
  intros Hread Hrem Hdump. unfold Injector.on_known. rewrite Hread. run.
  cbv beta iota delta [snd fst].
  replace ((remaining (data m) pos =? 0)%nat || (remaining (data m) pos =? 48)%nat)
    with true by (destruct Hrem as [-> | ->]; reflexivity).
  cbv beta iota delta [negb]. unfold Injector.record_and_dispatch, Injector.renumber.
  cbv beta iota delta [Conn_eqb]. run.
  unfold dumped in Hdump. destruct dumper as [d|].
  - unfold Injector.set_db, Injector.set_counter.
    cbv beta iota delta [Injector.db Injector.counter Injector.buf_jeu
      Injector.buf_ser Injector.injected_to_client Injector.injected_to_server
      Injector.sent Injector.console].
    rewrite Hdump. unfold Injector.handle_message, Injector.print. run.
    cbv beta iota delta [Injector.db Injector.counter Injector.buf_jeu
      Injector.buf_ser Injector.injected_to_client Injector.injected_to_server
      Injector.sent Injector.console].
    now rewrite <- !app_assoc.
  - unfold Injector.handle_message, Injector.print, Injector.set_db,
      Injector.set_counter. run.
    cbv beta iota delta [Injector.db Injector.counter Injector.buf_jeu
      Injector.buf_ser Injector.injected_to_client Injector.injected_to_server
      Injector.sent Injector.console].
    now rewrite <- !app_assoc.
Qed.

Lemma injector_drain_from_server (b rest : bytes) (ms : list Msg) :
  drains P false b ms rest ->
  Forall (decoded P) ms -> Forall (dumped dumper) ms ->
  forall (fuel : nat) (d : bytes) (s : Injector.State),
    Injector.buf_ser s = b -> (List.length ms <= fuel)%nat ->
    exists s',
      (msg <- Injector.pull P coSer ;;
       Injector.while_msg P W db_size dumper fuel d coSer msg) s = Ret tt s'
      /\ Injector.counter s' = Injector.counter s + Z.of_nat (List.length ms)
      /\ Injector.injected_to_server s' = Injector.injected_to_server s
      /\ Injector.injected_to_client s' = Injector.injected_to_client s
      /\ Injector.buf_ser s' = rest.
Proof.
  induction 1 as [b Hnone | b b' rest m ms Hsome Hdr IH];
    intros Hdec Hdump fuel d s Hb Hfuel.
  - exists s. unfold Injector.pull. run.
    change (Conn_eqb coSer coJeu) with false.
    change (Injector.buf coSer s) with (Injector.buf_ser s).
    rewrite Hb, Hnone. simpl. repeat split; auto; [now destruct fuel | lia].
  - inversion Hdec as [|? ? (ty & j & pos & Hid & Hread & Hrem) Hdec']; subst.
    inversion Hdump as [|? ? Hd Hdump']; subst.
    destruct fuel as [|fuel]; [simpl in Hfuel; lia|].
    unfold Injector.pull at 1. run.
    change (Conn_eqb coSer coJeu) with false.
    change (Injector.buf coSer s) with (Injector.buf_ser s).
    rewrite Hsome. run. simpl Injector.while_msg. rewrite Hid. run.
    rewrite (@injector_on_known_from_server m ty j pos _ Hread Hrem Hd).
    edestruct (IH Hdec' Hdump' fuel d) as (s' & Hrun & Hc & Hs & Hcl & Hbuf);
      [| | exists s'; split; [exact Hrun|]].
    + reflexivity.
    + simpl in Hfuel. lia.
    + simpl in Hc, Hs, Hcl. rewrite Hc, Hs, Hcl. repeat split; auto.
      simpl List.length. lia.
Qed.
End ServerFrames.

(** C10: in [InjectorBridgeHandler.handle] every decoded server-to-client
    frame adds 1 to [self.counter] (such frames carry no counter of their
    own): a chunk from the server that holds [n] decoded frames leaves the
    counter [n] higher and the injection counts as they were, so that the
    next message injected toward the server is sent with the counter
    [self.counter + n + 1], which depends on how many server frames were
    decoded since the last client frame. *)
Theorem server_frames_advance_counter
  (P : Protocol) (W : World) (db_size : nat) (dumper : option Dumper)
  (d rest : bytes) (ms : list Msg) (fuel : nat) (s : Injector.State) :
  drains P false (Injector.buf_ser s ++ d) ms rest ->
  Forall (decoded P) ms -> Forall (dumped dumper) ms ->
  (List.length ms <= fuel)%nat ->
  exists s',
    Injector.handle P W db_size dumper fuel d coSer s = Ret tt s'
    /\ Injector.counter s' = Injector.counter s + Z.of_nat (List.length ms)
    /\ Injector.injected_to_server s' = Injector.injected_to_server s
    /\ Injector.injected_to_client s' = Injector.injected_to_client s
    /\ forall m : Msg,
         exists s'',
           Injector.send_to_server P (Structured m) s' = Ret tt s''
           /\ Injector.sent s''
              = Injector.sent s'
                ++ [(coSer,
                     msg_bytes P
                       (set_count
                          (Injector.counter s + Z.of_nat (List.length ms) + 1) m))].
Proof.
  intros Hdr Hdec Hdump Hfuel.
  unfold Injector.handle, Injector.sendall. run.
  edestruct (@injector_drain_from_server P W db_size dumper _ _ _ Hdr Hdec Hdump fuel d)
    as (s' & Hrun & Hc & Hs & Hcl & _); [| exact Hfuel |].
  2: { exists s'. split; [exact Hrun|]. simpl in Hc, Hs, Hcl.
       repeat split; auto.
       intros m. rewrite injector_send_to_server_msg.
       eexists. split; [reflexivity|]. simpl. now rewrite Hc. }
  reflexivity.
Qed.

Lemma server_frames_advance_counter_witness :
  exists s',
    Injector.handle Sample.protocol Sample.world 100 None 5
      (Sample.pong ++ Sample.pong) coSer (Injector.set_counter 4 Injector.init)
    = Ret tt s'
    /\ Injector.counter s' = 4 + 2
    /\ Injector.injected_to_server s' = 0
    /\ Injector.injected_to_client s' = 0
    /\ forall m : Msg,
         exists s'',
           Injector.send_to_server Sample.protocol (Structured m) s' = Ret tt s''
           /\ Injector.sent s''
              = Injector.sent s' ++ [(coSer, Sample.msg_bytes (set_count (4 + 2 + 1) m))].
Proof.
  apply (@server_frames_advance_counter Sample.protocol Sample.world 100 None
           (Sample.pong ++ Sample.pong) []
           [mkMsg 183 ["001"%byte] None; mkMsg 183 ["001"%byte] None] 5
           (Injector.set_counter 4 Injector.init)).
  - apply drains_frame with (b' := Sample.pong); [reflexivity|].
    apply drains_frame with (b' := []); [reflexivity|].
    apply drains_done. reflexivity.
  - repeat constructor;
      exists {| Sample.name := "BasicPongMessage"; Sample.size := 1 |},
             (JDict [("__type__", JStr "BasicPongMessage")]), 1%nat;
      repeat split; left; reflexivity.
  - repeat constructor.
  - simpl. lia.
Defined.

(** ** The automation of [LucInjector] *)

Lemma list_set_app {A} (l1 l2 : list A) (x v : A) :
  list_set (l1 ++ x :: l2) (List.length l1) v = l1 ++ v :: l2.
Proof. induction l1 as [|a l1 IH]; simpl; [reflexivity | now rewrite IH]. Qed.

Lemma refill_from {A B} (f : A -> B) (none : B) (dflt : A) (done todo : list A) :
  fold_left (fun l i => list_set l i (f (nth i (done ++ todo) dflt)))
            (seq (List.length done) (List.length todo))
            (map f done ++ repeat none (List.length todo))
  = map f (done ++ todo).
Proof.
  revert done. induction todo as [|x todo IH]; intros done; simpl.
  - now rewrite !app_nil_r.
  - replace (List.length done) with (List.length (map f done)) at 2
      by apply length_map.
    rewrite list_set_app.
    rewrite app_nth2, Nat.sub_diag by lia. simpl.
    specialize (IH (done ++ [x])).
    rewrite <- !app_assoc, length_app, map_app in IH. simpl in IH.
    rewrite Nat.add_1_r, <- app_assoc in IH. exact IH.
Qed.

(** the refill loop copies the configured worklist *)
Lemma refill_full (items : list Z) : Luc.refill items = map Some items.
Proof. exact (refill_from Some None 0 [] items). Qed.

Lemma pop_last {A} (l : list A) (x : A) : pop (l ++ [x]) = Some (x, l).
Proof. unfold pop. rewrite rev_app_distr. simpl. now rewrite rev_involutive. Qed.

(** the state once one more reading of the clock has been taken *)
Definition ticked (s : Luc.State) : Luc.State :=
  Luc.mk (Luc.buf_jeu s) (Luc.buf_ser s) (Luc.injected_to_server s) (Luc.counter s)
         (Luc.injections s) (Luc.script s) (Luc.itemsleft s) (Luc.timer s)
         (Luc.sent s) (Luc.console s) (Datatypes.S (Luc.clock s)).

(** the state once [Msg.from_json(j)] has gone through [send_to_server] *)
Definition injected (P : Protocol) (j : Json) (s : Luc.State) : Luc.State :=
  Luc.mk (Luc.buf_jeu s) (Luc.buf_ser s) (Luc.injected_to_server s + 1)
         (Luc.counter s) (Luc.injections s) (Luc.script s) (Luc.itemsleft s)
         (Luc.timer s)
         (Luc.sent s
          ++ [(coSer, msg_bytes P (set_count (Luc.counter s + 1) (from_json P j)))])
         (Luc.console s
          ++ [LStr "Injected : "; LMsg (set_count (Luc.counter s + 1) (from_json P j))])
         (Luc.clock s).

Lemma list_eq_nil_or_last {A} (l : list A) :
  l = [] \/ exists l' x, l = l' ++ [x].
Proof.
  destruct l as [|a l0]; [now left|right].
  assert (H : a :: l0 <> []) by discriminate.
  destruct (exists_last H) as (l' & x & E). eauto.
Qed.

Section LucFacts.
Variable P : Protocol.
Variable W : World.
Variable time : nat -> float.
Variable items : list Z.

Lemma pace_off (s : Luc.State) :
  Luc.script s = off -> Luc.pace P time items s = Ret tt s.
Proof. unfold Luc.pace. run. now intros ->. Qed.

Lemma pace_refill (s : Luc.State) :
  Luc.script s = on -> Luc.itemsleft s = [] ->
  Luc.pace P time items s = Ret tt (Luc.set_itemsleft (Luc.refill items) s).
Proof. unfold Luc.pace. run. now intros -> ->. Qed.

Lemma pace_wait (s : Luc.State) :
  Luc.script s = on -> Luc.itemsleft s <> [] ->
  float_gt (time (Luc.clock s) - Luc.timer s) 0.8 = false ->
  Luc.pace P time items s = Ret tt (ticked s).
Proof.
  unfold Luc.pace, Luc.time_time. run. intros -> Hne Hq.
  replace (is_nil (Luc.itemsleft s)) with false
    by (destruct (Luc.itemsleft s) eqn:E0; [congruence | reflexivity]).
  now rewrite Hq.
Qed.

Lemma pace_refresh (s : Luc.State) :
  Luc.script s = on -> Luc.itemsleft s <> [] ->
  float_gt (time (Luc.clock s) - Luc.timer s) 0.8 = true ->
  Luc.injections s mod 3 = 2 ->
  Luc.pace P time items s
  = Ret tt (Luc.set_injections (Luc.injections s + 1)
              (injected P InteractiveUseRequestMessage
                 (injected P LeaveDialogRequestMessage (ticked s)))).
Proof.
  unfold Luc.pace, Luc.time_time. run. intros -> Hne Hq Hm.
  replace (is_nil (Luc.itemsleft s)) with false
    by (destruct (Luc.itemsleft s) eqn:E0; [congruence | reflexivity]).
  rewrite Hq, Hm. change (2 =? 2) with true. cbv beta iota.
  unfold Luc.disconnect_hdv, Luc.connect_hdv.
  rewrite luc_send_to_server_msg. rewrite luc_send_to_server_msg.
  reflexivity.
Qed.

Lemma pace_query (s : Luc.State) (l : list (option Z)) (x : option Z) :
  Luc.script s = on -> Luc.itemsleft s = l ++ [x] ->
  float_gt (time (Luc.clock s) - Luc.timer s) 0.8 = true ->
  Luc.injections s mod 3 <> 2 ->
  Luc.pace P time items s
  = Ret tt (Luc.set_injections (Luc.injections s + 1)
              (Luc.set_timer (time (Luc.clock s))
                 (injected P (ExchangeBidHouseSearchMessage (Luc.json_of_item x))
                    (Luc.set_itemsleft l (ticked s))))).
Proof.
  unfold Luc.pace, Luc.time_time. run. intros -> E Hq Hm.
  rewrite E. replace (is_nil (l ++ [x])) with false by now destruct l.
  rewrite Hq. apply Z.eqb_neq in Hm. rewrite Hm.
  unfold Luc.pop_itemsleft. run. cbn [Luc.itemsleft]. rewrite ?E, pop_last.
  run. unfold Luc.ask_item_price. rewrite luc_send_to_server_msg. reflexivity.
Qed.

(** the paced injection always returns, and leaves [self.script] and
    [self.counter] as they are *)
Lemma pace_returns (s : Luc.State) :
  exists s1, Luc.pace P time items s = Ret tt s1
             /\ Luc.script s1 = Luc.script s
             /\ Luc.counter s1 = Luc.counter s.
Proof.
  destruct (Luc.script s) eqn:Hs.
  - exists s. rewrite pace_off; auto.
  - destruct (Luc.itemsleft s) as [|a l0] eqn:E.
    + eexists. rewrite pace_refill; auto.
    + assert (Hne : Luc.itemsleft s <> []) by congruence.
      destruct (float_gt (time (Luc.clock s) - Luc.timer s) 0.8) eqn:Hq.
      * destruct (Z.eq_dec (Luc.injections s mod 3) 2) as [Hm|Hm].
        -- eexists. rewrite pace_refresh; auto.
        -- destruct (exists_last Hne) as (l & x & El).
           eexists. rewrite (@pace_query s l x Hs El Hq Hm). simpl. auto.
      * eexists. rewrite pace_wait; auto.
Qed.
End LucFacts.

Lemma jis_eq (t : string) (c : Json) : c = JStr t -> jis t c = true.
Proof. intros ->. simpl. apply String.eqb_refl. Qed.

Lemma jis_neq (t : string) (c : Json) : c <> JStr t -> jis t c = false.
Proof.
  intros H. destruct c; simpl; auto.
  destruct (String.eqb s t) eqn:E; auto.
  apply String.eqb_eq in E. congruence.
Qed.

(** the state once the chat message and its content have been echoed on the
    console *)
Definition echoed (W : World) (origin : Conn) (msg c : Json) (s : Luc.State)
  : Luc.State :=
  Luc.mk (Luc.buf_jeu s) (Luc.buf_ser s) (Luc.injected_to_server s) (Luc.counter s)
         (Luc.injections s) (Luc.script s) (Luc.itemsleft s) (Luc.timer s)
         (Luc.sent s)
         (Luc.console s ++ [LStr (direction W origin); LJson msg; LJson c])
         (Luc.clock s).

(** running a handler of [LucInjector] on a state given field by field *)
Ltac luc_run :=
  cbv beta iota zeta delta
    [bind modify get ret raise lift when
     Luc.print Luc.sendall Luc.time_time Luc.set_script Luc.set_timer
     Luc.set_itemsleft Luc.set_injections Luc.set_injected_to_server
     Luc.send_message Luc.send_to_server Luc.ask_item_price
     Luc.disconnect_hdv Luc.connect_hdv injected echoed ticked
     Luc.buf_jeu Luc.buf_ser Luc.injected_to_server Luc.counter Luc.injections
     Luc.script Luc.itemsleft Luc.timer Luc.sent Luc.console Luc.clock].

Lemma chat_not_masked :
  existsb (fun t => jis t (JStr "ChatClientMultiMessage")) Luc.masked = false.
Proof. vm_compute. reflexivity. Qed.

Section ChatCommands.
Variable P : Protocol.
Variable W : World.
Variable time : nat -> float.
Variable items : list Z.
Variable msg c : Json.
Variable origin : Conn.
Hypothesis msg_type : jget "__type__" msg = inr (JStr "ChatClientMultiMessage").
Hypothesis msg_content : jget "content" msg = inr c.

Lemma inspect_chat (s : Luc.State) :
  Luc.inspect P W time items msg origin s
  = (Luc.print (LStr (direction W origin)) ;;
     Luc.print (LJson msg) ;;
     Luc.command P time items msg) s.
Proof.
  unfold Luc.inspect. rewrite msg_type. run. rewrite chat_not_masked.
  cbn [negb orb].
  replace (jis "ExchangeTypesItemsExchangerDescriptionForUserMessage"
             (JStr "ChatClientMultiMessage")) with false by reflexivity.
  replace (jis "ChatClientMultiMessage" (JStr "ChatClientMultiMessage"))
    with true by reflexivity.
  reflexivity.
Qed.

Lemma inspect_stop (s : Luc.State) :
  c = JStr "stop" ->
  Luc.inspect P W time items msg origin s
  = Ret tt (injected P (ChatClientMultiMessage "stooooooop")
              (Luc.set_script off (echoed W origin msg c s))).
Proof.
  intros Hc. rewrite inspect_chat. unfold Luc.command.
  rewrite msg_content. destruct s. luc_run. rewrite (@jis_eq _ _ Hc). luc_run.
  now rewrite <- !app_assoc.
Qed.

Lemma inspect_lessgo (s : Luc.State) :
  c = JStr "lessgo" ->
  Luc.inspect P W time items msg origin s
  = Ret tt (injected P (ChatClientMultiMessage "gooooooooo")
              (Luc.set_itemsleft (Luc.refill items)
                 (Luc.set_timer (time (Luc.clock s))
                    (ticked (Luc.set_script on (echoed W origin msg c s)))))).
Proof.
  intros Hc. rewrite inspect_chat. unfold Luc.command.
  rewrite msg_content. destruct s. luc_run.
  replace (jis "stop" c) with false by (subst c; reflexivity).
  rewrite (@jis_eq _ _ Hc). luc_run. now rewrite <- !app_assoc.
Qed.

Lemma inspect_other (s : Luc.State) :
  c <> JStr "stop" -> c <> JStr "lessgo" ->
  Luc.inspect P W time items msg origin s = Ret tt (echoed W origin msg c s).
Proof.
  intros H1 H2. rewrite inspect_chat. unfold Luc.command.
  rewrite msg_content. destruct s. luc_run.
  rewrite (@jis_neq _ _ H1), (@jis_neq _ _ H2). now rewrite <- !app_assoc.
Qed.
End ChatCommands.

Lemma pace_keeps (P : Protocol) (time : nat -> float) (items : list Z)
  (s s1 : Luc.State) :
  Luc.pace P time items s = Ret tt s1 ->
  Luc.script s1 = Luc.script s /\ Luc.counter s1 = Luc.counter s.
Proof.
  intros H. destruct (pace_returns P time items s) as (s1' & H' & Hs & Hc).
  rewrite H in H'. inversion H'; subst. auto.
Qed.

Lemma handle_message_after_pace (P : Protocol) (W : World) (time : nat -> float)
  (items : list Z) (msg : Json) (origin : Conn) (s s1 : Luc.State) :
  Luc.pace P time items s = Ret tt s1 ->
  Luc.handle_message P W time items msg origin s
  = Luc.inspect P W time items msg origin s1.
Proof. intros H. unfold Luc.handle_message, bind. now rewrite H. Qed.

(** the readings of a clock that is read once a second *)
Definition seconds (n : nat) : float :=
  PrimFloat.of_uint63 (Uint63.of_Z (Z.of_nat n)).

(** a parsed frame of no interest to the automation *)
Definition pong_message : Json := JDict [("__type__", JStr "BasicPongMessage")].

(** [handle_message] of a [LucInjector] configured with the worklist
    [[7, 8, 9]] *)
Definition on_message (msg : Json) (origin : Conn) : M Luc.State unit :=
  Luc.handle_message Sample.protocol Sample.world seconds [7; 8; 9] msg origin.

Definition worklist_789 : Luc.State := Luc.init seconds [7; 8; 9].

(** the automation is started, then a chat message that is no command is
    observed one second later *)
Definition chat_while_running : M Luc.State unit :=
  on_message (ChatClientMultiMessage "lessgo") coJeu ;;
  on_message (ChatClientMultiMessage "hello") coJeu.

(** C6 as stated fails for contents other than the two tokens.  Once the
    automation runs with the worklist [[7, 8, 9]] and the timer at 1 second,
    the chat message "hello" observed at 2 seconds leaves the script on, but
    the call of [handle_message] that looks at it has first queried item 9:
    the worklist is [[7, 8]] and the timer is at 2 seconds. *)
Lemma other_content_still_paces :
  exists s s',
    on_message (ChatClientMultiMessage "lessgo") coJeu worklist_789 = Ret tt s
    /\ Luc.script s = on
    /\ Luc.itemsleft s = [Some 7; Some 8; Some 9]
    /\ Luc.timer s = seconds 1
    /\ on_message (ChatClientMultiMessage "hello") coJeu s = Ret tt s'
    /\ chat_while_running worklist_789 = Ret tt s'
    /\ Luc.script s' = on
    /\ Luc.itemsleft s' = [Some 7; Some 8]
    /\ Luc.itemsleft s' <> Luc.itemsleft s
    /\ Luc.timer s' = seconds 2
    /\ Luc.timer s' <> Luc.timer s
    /\ Luc.sent s'
       = Luc.sent s
         ++ [(coSer, Sample.msg_bytes
                       (set_count 1 (Sample.from_json
                                       (ExchangeBidHouseSearchMessage (JNum 9)))))].
Proof.
  eexists. eexists. split; [vm_compute; reflexivity|].
  split; [reflexivity|]. split; [reflexivity|]. split; [reflexivity|].
  split; [vm_compute; reflexivity|]. vm_compute.
  repeat split; try reflexivity; discriminate.
Qed.

(** C6, amended: [LucInjector] starts with [script = "off"].  Every call of
    [handle_message] begins with the paced injection, which returns (in
    [s1]) and does nothing while the script is off.  After it, a
    [ChatClientMultiMessage] whose content is "lessgo" sets [script] to
    "on", sets the timer to the reading of the clock taken at that moment
    and refills the worklist with all the configured items; content "stop"
    sets [script] to "off"; with any other content the script stays as it
    was before the message, and the command adds nothing to what the paced
    injection did: the timer, the worklist, the bytes sent, the action
    counter and the clock are as the paced injection left them, hence as
    they were before the message when the script is off. *)
Theorem control_tokens_drive_automation
  (P : Protocol) (W : World) (time : nat -> float) (items : list Z)
  (msg c : Json) (origin : Conn) (s : Luc.State) :
  jget "__type__" msg = inr (JStr "ChatClientMultiMessage") ->
  jget "content" msg = inr c ->
  Luc.script (Luc.init time items) = off
  /\ exists s1,
       Luc.pace P time items s = Ret tt s1
       /\ (Luc.script s = off -> s1 = s)
       /\ (c = JStr "lessgo" ->
           exists s', Luc.handle_message P W time items msg origin s = Ret tt s'
                      /\ Luc.script s' = on
                      /\ Luc.timer s' = time (Luc.clock s1)
                      /\ Luc.itemsleft s' = map Some items)
       /\ (c = JStr "stop" ->
           exists s', Luc.handle_message P W time items msg origin s = Ret tt s'
                      /\ Luc.script s' = off)
       /\ (c <> JStr "lessgo" -> c <> JStr "stop" ->
           exists s', Luc.handle_message P W time items msg origin s = Ret tt s'
                      /\ Luc.script s' = Luc.script s
                      /\ Luc.timer s' = Luc.timer s1
                      /\ Luc.itemsleft s' = Luc.itemsleft s1
                      /\ Luc.sent s' = Luc.sent s1
                      /\ Luc.injections s' = Luc.injections s1
                      /\ Luc.clock s' = Luc.clock s1
                      /\ (Luc.script s = off ->
                          Luc.timer s' = Luc.timer s
                          /\ Luc.itemsleft s' = Luc.itemsleft s
                          /\ Luc.sent s' = Luc.sent s
                          /\ Luc.injections s' = Luc.injections s)).
Proof.
  intros Hty Hc. split; [reflexivity|].
  destruct (pace_returns P time items s) as (s1 & Hpace & Hscript & _).
  assert (Hoff : Luc.script s = off -> s1 = s).
  { intros Hoff. rewrite (@pace_off P time items s Hoff) in Hpace.
    now inversion Hpace. }
  exists s1. split; [exact Hpace|]. split; [exact Hoff|].
  rewrite (@handle_message_after_pace P W time items msg origin s s1 Hpace).
  split; [|split].
  - intros E. rewrite (@inspect_lessgo P W time items msg c origin Hty Hc s1 E).
    eexists. split; [reflexivity|]. destruct s1. luc_run.
    rewrite refill_full. auto.
  - intros E. rewrite (@inspect_stop P W time items msg c origin Hty Hc s1 E).
    eexists. split; [reflexivity|]. reflexivity.
  - intros E1 E2. rewrite (@inspect_other P W time items msg c origin Hty Hc s1 E2 E1).
    eexists. split; [reflexivity|]. rewrite <- Hscript.
    assert (Hf : Luc.timer (echoed W origin msg c s1) = Luc.timer s1
                 /\ Luc.itemsleft (echoed W origin msg c s1) = Luc.itemsleft s1
                 /\ Luc.sent (echoed W origin msg c s1) = Luc.sent s1
                 /\ Luc.injections (echoed W origin msg c s1) = Luc.injections s1)
      by now destruct s1.
    destruct Hf as (Ht & Hi & Hs & Hn).
    split; [now destruct s1|]. split; [exact Ht|]. split; [exact Hi|].
    split; [exact Hs|]. split; [exact Hn|]. split; [now destruct s1|].
    intros Hs0. rewrite Hscript in Hs0. rewrite Ht, Hi, Hs, Hn, (Hoff Hs0). auto.
Qed.

Lemma control_tokens_drive_automation_witness :
  exists s',
    on_message (ChatClientMultiMessage "lessgo") coJeu worklist_789 = Ret tt s'
    /\ Luc.script s' = on
    /\ Luc.timer s' = seconds 1
    /\ Luc.itemsleft s' = [Some 7; Some 8; Some 9].
Proof.
  destruct (@control_tokens_drive_automation Sample.protocol Sample.world seconds
              [7; 8; 9] (ChatClientMultiMessage "lessgo") (JStr "lessgo") coJeu
              worklist_789 eq_refl eq_refl)
    as (_ & s1 & _ & Hoff & Hstart & _).
  destruct (Hstart eq_refl) as (s' & Hrun & Hon & Htimer & Hleft).
  exists s'. rewrite (Hoff eq_refl) in Htimer.
  split; [exact Hrun|]. split; [exact Hon|]. split; [exact Htimer|exact Hleft].
Defined.

(** C9: when [handle_message] recognises "lessgo" (and likewise "stop") it
    calls [send_message], hence [send_to_server], once: one chat message,
    "gooooooooo" (resp. "stooooooop"), numbered [self.counter + 1], is sent
    to the server and [injected_to_server] grows by 1, on top of what the
    paced injection at the head of [handle_message] sent, which is nothing
    when the script was off. *)
Theorem control_token_injects_confirmation
  (P : Protocol) (W : World) (time : nat -> float) (items : list Z)
  (msg c : Json) (origin : Conn) (s s1 : Luc.State) :
  jget "__type__" msg = inr (JStr "ChatClientMultiMessage") ->
  jget "content" msg = inr c ->
  Luc.pace P time items s = Ret tt s1 ->
  (c = JStr "lessgo" ->
   exists s', Luc.handle_message P W time items msg origin s = Ret tt s'
              /\ Luc.sent s'
                 = Luc.sent s1
                   ++ [(coSer, msg_bytes P
                                 (set_count (Luc.counter s + 1)
                                    (from_json P (ChatClientMultiMessage "gooooooooo"))))]
              /\ Luc.injected_to_server s' = Luc.injected_to_server s1 + 1)
  /\ (c = JStr "stop" ->
      exists s', Luc.handle_message P W time items msg origin s = Ret tt s'
                 /\ Luc.sent s'
                    = Luc.sent s1
                      ++ [(coSer, msg_bytes P
                                    (set_count (Luc.counter s + 1)
                                       (from_json P (ChatClientMultiMessage "stooooooop"))))]
                 /\ Luc.injected_to_server s' = Luc.injected_to_server s1 + 1)
  /\ (Luc.script s = off -> s1 = s).
Proof.
  intros Hty Hc Hpace.
  rewrite (@handle_message_after_pace P W time items msg origin s s1 Hpace).
  destruct (@pace_keeps P time items s s1 Hpace) as [_ Hcounter]. rewrite <- Hcounter.
  split; [|split].
  - intros E. rewrite (@inspect_lessgo P W time items msg c origin Hty Hc s1 E).
    eexists. split; [reflexivity|]. now destruct s1.
  - intros E. rewrite (@inspect_stop P W time items msg c origin Hty Hc s1 E).
    eexists. split; [reflexivity|]. now destruct s1.
  - intros Hoff. rewrite (@pace_off P time items s Hoff) in Hpace.
    now inversion Hpace.
Qed.

Lemma control_token_injects_confirmation_witness :
  exists s',
    on_message (ChatClientMultiMessage "lessgo") coJeu worklist_789 = Ret tt s'
    /\ Luc.sent s'
       = [(coSer, Sample.msg_bytes
                    (set_count 1 (Sample.from_json (ChatClientMultiMessage "gooooooooo"))))]
    /\ Luc.injected_to_server s' = 1.
Proof.
  destruct (@control_token_injects_confirmation Sample.protocol Sample.world seconds
              [7; 8; 9] (ChatClientMultiMessage "lessgo") (JStr "lessgo") coJeu
              worklist_789 worklist_789 eq_refl eq_refl eq_refl)
    as (Hstart & _).
  exact (Hstart eq_refl).
Defined.

(** the automation is started, then three frames are observed, one second
    apart *)
Definition three_paced_frames : M Luc.State unit :=
  on_message (ChatClientMultiMessage "lessgo") coJeu ;;
  on_message pong_message coSer ;;
  on_message pong_message coSer ;;
  on_message pong_message coSer.

(** C7 as stated fails.  With the worklist [[7, 8, 9]] the third action is
    the leave/re-enter pair, performed when the clock reads 4 seconds, and
    it leaves the timer at 3 seconds, the time of the second action.  One
    frame later the last entry is queried, and on the frame after that,
    although more than the threshold has elapsed, nothing is sent and the
    timer stays: the empty worklist is refilled instead. *)
Lemma refresh_keeps_timer :
  (exists s,
     three_paced_frames worklist_789 = Ret tt s
     /\ Luc.injections s = 3
     /\ skipn 3 (Luc.sent s)
        = [(coSer, Sample.msg_bytes
                     (set_count 1 (Sample.from_json LeaveDialogRequestMessage)));
           (coSer, Sample.msg_bytes
                     (set_count 1 (Sample.from_json InteractiveUseRequestMessage)))]
     /\ Luc.clock s = 5%nat
     /\ Luc.timer s = seconds 3
     /\ Luc.timer s <> seconds 4)
  /\ (exists s4 s5,
        (three_paced_frames ;; on_message pong_message coSer) worklist_789 = Ret tt s4
        /\ Luc.script s4 = on
        /\ Luc.itemsleft s4 = []
        /\ float_gt (seconds (Luc.clock s4) - Luc.timer s4) 0.8 = true
        /\ on_message pong_message coSer s4 = Ret tt s5
        /\ Luc.sent s5 = Luc.sent s4
        /\ Luc.timer s5 = Luc.timer s4
        /\ Luc.itemsleft s5 = [Some 7; Some 8; Some 9]).
Proof.
  split.
  - eexists. split; [vm_compute; reflexivity|]. vm_compute.
    repeat split; try reflexivity. discriminate.
  - eexists. eexists. split; [vm_compute; reflexivity|].
    repeat split; reflexivity.
Qed.

(** C7, amended: while the script is on, [handle_message] begins with the
    paced injection, which returns and leaves the script on.  With an empty
    worklist it only refills the worklist with all the configured items:
    nothing is sent, and the timer and the action counter stay.  With a
    worklist that is not empty, a frame observed when [datenow - self.timer]
    is greater than 0.8 (both computed on doubles) makes it perform exactly
    one action and add 1 to the action counter.  When the action counter is
    2 modulo 3 the action is the pair leave-dialog, use-interactive, sent
    through [send_to_server]; the worklist and the timer stay as they are.
    Otherwise the last entry of the worklist is removed and a search for it
    is sent through [send_to_server], and the timer is set to the reading of
    the clock.  When the difference is not greater than 0.8 nothing is sent
    and the worklist, the timer and the action counter stay. *)
Theorem paced_action
  (P : Protocol) (W : World) (time : nat -> float) (items : list Z)
  (s : Luc.State) :
  Luc.script s = on ->
  exists s',
    Luc.pace P time items s = Ret tt s'
    /\ (forall msg origin,
          Luc.handle_message P W time items msg origin s
          = Luc.inspect P W time items msg origin s')
    /\ Luc.script s' = on
    /\ (Luc.itemsleft s = [] ->
        Luc.itemsleft s' = map Some items
        /\ Luc.sent s' = Luc.sent s
        /\ Luc.injected_to_server s' = Luc.injected_to_server s
        /\ Luc.injections s' = Luc.injections s
        /\ Luc.timer s' = Luc.timer s
        /\ Luc.clock s' = Luc.clock s)
    /\ (forall l x,
          Luc.itemsleft s = l ++ [x] ->
          float_gt (time (Luc.clock s) - Luc.timer s) 0.8 = true ->
          Luc.injections s' = Luc.injections s + 1
          /\ (Luc.injections s mod 3 = 2 ->
              Luc.sent s'
              = Luc.sent s
                ++ [(coSer, msg_bytes P (set_count (Luc.counter s + 1)
                                           (from_json P LeaveDialogRequestMessage)));
                    (coSer, msg_bytes P (set_count (Luc.counter s + 1)
                                           (from_json P InteractiveUseRequestMessage)))]
              /\ Luc.injected_to_server s' = Luc.injected_to_server s + 2
              /\ Luc.itemsleft s' = l ++ [x]
              /\ Luc.timer s' = Luc.timer s)
          /\ (Luc.injections s mod 3 <> 2 ->
              Luc.sent s'
              = Luc.sent s
                ++ [(coSer, msg_bytes P
                              (set_count (Luc.counter s + 1)
                                 (from_json P (ExchangeBidHouseSearchMessage
                                                 (Luc.json_of_item x)))))]
              /\ Luc.injected_to_server s' = Luc.injected_to_server s + 1
              /\ Luc.itemsleft s' = l
              /\ Luc.timer s' = time (Luc.clock s)))
    /\ (Luc.itemsleft s <> [] ->
        float_gt (time (Luc.clock s) - Luc.timer s) 0.8 = false ->
        Luc.sent s' = Luc.sent s
        /\ Luc.injected_to_server s' = Luc.injected_to_server s
        /\ Luc.injections s' = Luc.injections s
        /\ Luc.itemsleft s' = Luc.itemsleft s
        /\ Luc.timer s' = Luc.timer s).
Proof.
  intros Hon.
  destruct (list_eq_nil_or_last (Luc.itemsleft s)) as [Hnil|(l & x & Hl)].
  - pose proof (@pace_refill P time items s Hon Hnil) as Hp.
    eexists. split; [exact Hp|].
    split; [intros msg origin; apply handle_message_after_pace; exact Hp|].
    split; [now destruct s|].
    split; [intros _; rewrite <- refill_full; now destruct s|].
    split; [intros l x Hl; rewrite Hnil in Hl; now destruct l|].
    intros Hne. contradiction.
  - assert (Hne : Luc.itemsleft s <> []) by (rewrite Hl; now destruct l).
    destruct (float_gt (time (Luc.clock s) - Luc.timer s) 0.8) eqn:Hq.
    + destruct (Z.eq_dec (Luc.injections s mod 3) 2) as [Hm|Hm].
      * pose proof (@pace_refresh P time items s Hon Hne Hq Hm) as Hp.
        eexists. split; [exact Hp|].
        split; [intros msg origin; apply handle_message_after_pace; exact Hp|].
        split; [now destruct s|].
        split; [intros Hnil; contradiction|].
        split; [|intros _ Hf; discriminate].
        intros l' x' Hl' _. clear Hp Hq Hne Hl.
        destruct s. luc_run. simpl in Hon, Hl', Hm. subst.
        repeat split; auto; try congruence.
        -- now rewrite <- !app_assoc.
        -- lia.
      * pose proof (@pace_query P time items s l x Hon Hl Hq Hm) as Hp.
        eexists. split; [exact Hp|].
        split; [intros msg origin; apply handle_message_after_pace; exact Hp|].
        split; [now destruct s|].
        split; [intros Hnil; contradiction|].
        split; [|intros _ Hf; discriminate].
        intros l' x' Hl' _. rewrite Hl in Hl'.
        apply app_inj_tail in Hl'. destruct Hl' as [<- <-]. clear Hp Hq Hne.
        destruct s. luc_run. simpl in Hon, Hl, Hm. subst.
        repeat split; auto; try congruence.
    + pose proof (@pace_wait P time items s Hon Hne Hq) as Hp.
      eexists. split; [exact Hp|].
      split; [intros msg origin; apply handle_message_after_pace; exact Hp|].
      split; [now destruct s|].
      split; [intros Hnil; contradiction|].
      split; [intros l' x' _ Hf; discriminate|].
      intros _ _. now destruct s.
Qed.

Lemma paced_action_witness :
  exists s',
    Luc.pace Sample.protocol seconds [7; 8; 9]
      (Luc.set_script on (Luc.set_itemsleft [Some 7; Some 8; Some 9] worklist_789))
    = Ret tt s'
    /\ Luc.sent s'
       = [(coSer, Sample.msg_bytes
                    (set_count 1 (Sample.from_json
                                    (ExchangeBidHouseSearchMessage (JNum 9)))))]
    /\ Luc.itemsleft s' = [Some 7; Some 8]
    /\ Luc.timer s' = seconds 1
    /\ Luc.injections s' = 1.
Proof.
  destruct (@paced_action Sample.protocol Sample.world seconds [7; 8; 9]
              (Luc.set_script on
                 (Luc.set_itemsleft [Some 7; Some 8; Some 9] worklist_789))
              eq_refl)
    as (s' & Hrun & _ & _ & _ & Haction & _).
  exists s'. split; [exact Hrun|].
  destruct (Haction [Some 7; Some 8] (Some 9) eq_refl eq_refl)
    as (Hinj & _ & Hquery).
  destruct Hquery as (Hsent & _ & Hleft & Htimer); [discriminate|].
  repeat split; assumption.
Defined.

(** ** The assertion on the decoded length *)

Section DecodeCheck.
Variable P : Protocol.
Variable m : Msg.
Variable ty : MsgType P.
Variable j : Json.
Variable pos : nat.
Hypothesis known : msg_from_id P (id m) = Some ty.
Hypothesis parsed : read P ty (data m) = inr (j, pos).



End DecodeCheck.








(** a client frame of type 182 with one byte more than the entry reads *)
Definition fat_ping : Msg := mkMsg 182 ["001"%byte; "002"%byte] (Some 5).


(** ** Failing sinks *)

(** the state once the lines [ls] have been printed *)
Definition logged (ls : list Line) (s : Luc.State) : Luc.State :=
  Luc.mk (Luc.buf_jeu s) (Luc.buf_ser s) (Luc.injected_to_server s) (Luc.counter s)
         (Luc.injections s) (Luc.script s) (Luc.itemsleft s) (Luc.timer s)
         (Luc.sent s) (Luc.console s ++ ls) (Luc.clock s).

Definition got_one : Line := LStr "--------------- GOT ONE ---------------".

Lemma prices_not_masked :
  existsb (fun t => jis t (JStr "ExchangeTypesItemsExchangerDescriptionForUserMessage"))
          Luc.masked = false.
Proof. vm_compute. reflexivity. Qed.






(** a price description as [protocol.read] gives it *)
Definition price_message : Json :=
  JDict [("__type__", JStr "ExchangeTypesItemsExchangerDescriptionForUserMessage");
         ("itemTypeDescriptions",
          JList [JDict [("objectUID", JNum 1); ("objectGID", JNum 9);
                        ("prices", JList [JNum 10; JNum 95; JNum 900])]])].


(** ** Unknown ids in [MsgBridgeHandler]: skipped, and the loop ends *)

Section DispatchTermination.
Variable P : Protocol.
Variable U : Type.
Variable hm : Json -> Conn -> M (Dispatch.State U) unit.
Variable origin : Conn.

(** extraction consumes from the front of the buffer *)
Hypothesis fromRaw_consumes :
  forall fc b m rest,
    fromRaw P fc b = Some (m, rest) -> (List.length rest < List.length b)%nat.
(** the callback returns or raises, and leaves the buffers alone *)
Hypothesis hm_ends : forall j o s, hm j o s <> OutOfFuel.
Hypothesis hm_keeps_buf : forall j o, keeps (Dispatch.buf origin) (hm j o).

Lemma dispatch_while_unknown (fuel : nat) (m : Msg) (s : Dispatch.State U) :
  msg_from_id P (id m) = None ->
  Dispatch.while_msg P hm (Datatypes.S fuel) origin (Some m) s
  = (Dispatch.print (LSorry (id m)) ;;
     msg' <- Dispatch.pull P origin ;;
     Dispatch.while_msg P hm fuel origin msg') s.
Proof. intros H. cbn [Dispatch.while_msg]. now rewrite H. Qed.

Lemma dispatch_body_ends (m : Msg) (s : Dispatch.State U) :
  match (match msg_from_id P (id m) with
         | Some ty => Dispatch.on_known P hm origin m ty
         | None => Dispatch.print (LSorry (id m))
         end) s with
  | Ret _ s' => Dispatch.buf origin s' = Dispatch.buf origin s
  | Raise _ _ => True
  | OutOfFuel => False
  end.
Proof.
  destruct (msg_from_id P (id m)) as [ty|].
  - unfold Dispatch.on_known. destruct (read P ty (data m)) as [e|[j pos]]; run; auto.
    cbn [fst snd]. destruct (negb _); auto.
    pose proof (@hm_ends j origin s) as He.
    pose proof (hm_keeps_buf j origin s) as Hk.
    destruct (hm j origin s); auto.
  - unfold Dispatch.print. run. now destruct origin.
Qed.

Lemma dispatch_while_ends (fuel : nat) :
  forall (msg : option Msg) (s : Dispatch.State U),
    msg = None \/ (List.length (Dispatch.buf origin s) < fuel)%nat ->
    Dispatch.while_msg P hm fuel origin msg s <> OutOfFuel.
Proof.
  induction fuel as [|fuel IH]; intros [m|] s [H|H]; try discriminate;
    try (simpl in H; lia); try (simpl; discriminate).
  cbn [Dispatch.while_msg]. unfold bind at 1.
  pose proof (dispatch_body_ends m s) as Hb.
  remember (match msg_from_id P (id m) with
            | Some ty => Dispatch.on_known P hm origin m ty
            | None => Dispatch.print (LSorry (id m))
            end s) as body eqn:Ebody.
  clear Ebody. destruct body as [[] s1|e s1|]; [|discriminate|contradiction].
  unfold Dispatch.pull. run.
  destruct (fromRaw P (Conn_eqb origin coJeu) (Dispatch.buf origin s1))
    as [[m' rest]|] eqn:E.
  - apply IH. right. apply fromRaw_consumes in E.
    replace (Dispatch.buf origin (Dispatch.set_buf origin rest s1)) with rest
      by now destruct origin.
    rewrite Hb in E. lia.
  - apply IH. now left.
Qed.

(** with as many iterations as there are bytes at hand, [handle] returns
    or raises: unknown ids do not keep it in the loop *)
Lemma dispatch_handle_ends (fuel : nat) (d : bytes) (s : Dispatch.State U) :
  (List.length (Dispatch.buf origin s) + List.length d <= fuel)%nat ->
  Dispatch.handle P hm fuel d origin s <> OutOfFuel.
Proof.
  intros Hfuel. unfold Dispatch.handle, Dispatch.sendall, Dispatch.pull. run.
  match goal with
  | |- context [fromRaw P ?fc ?b] =>
      destruct (fromRaw P fc b) as [[m rest]|] eqn:E
  end.
  - apply dispatch_while_ends. right. apply fromRaw_consumes in E.
    replace (Dispatch.buf origin (Dispatch.set_buf origin rest _)) with rest
      by now destruct origin.
    revert E. destruct s, origin; cbn; rewrite length_app; cbn in Hfuel; lia.
  - apply dispatch_while_ends. now left.
Qed.
End DispatchTermination.

(** * Further properties of the handlers *)

(** ** [PrintingBridgeHandler]: forward and print every chunk *)

(** [bytes.hex()]: two lower-case hexadecimal digits per byte *)
Definition hex_digit (n : N) : Ascii.ascii :=
  match String.get (N.to_nat n) "0123456789abcdef" with
  | Some c => c
  | None => Ascii.zero
  end.

Fixpoint hex (d : bytes) : string :=
  match d with
  | [] => EmptyString
  | b :: d' =>
      String (hex_digit (Byte.to_N b / 16))
             (String (hex_digit (Byte.to_N b mod 16)) (hex d'))
  end.

Module PrintingBridge.
Record State : Type := mk {
  sent : list (Conn * bytes);
  console : list Line
}.

(** [super().handle(data, origin)] then [print(direction(origin), data.hex())] *)
Definition handle (W : World) (d : bytes) (origin : Conn) : M State unit :=
  modify (fun s => mk (sent s ++ [(other origin, d)]) (console s)) ;;
  modify (fun s => mk (sent s)
                      (console s ++ [LStr (cat (cat (direction W origin) " ") (hex d))])).
End PrintingBridge.

(** ** [PrintingMsgBridgeHandler]: [MsgBridgeHandler] with a printing callback *)

Module PrintingMsg.
Definition State : Type := Dispatch.State unit.

Definition handle_message (W : World) (msg : Json) (origin : Conn) : M State unit :=
  Dispatch.print (LStr (direction W origin)) ;;
  Dispatch.print (LJson msg) ;;
  Dispatch.print LBlank ;;
  Dispatch.print LBlank.

Definition handle (P : Protocol) (W : World) (fuel : nat) (d : bytes)
  (origin : Conn) : M State unit :=
  Dispatch.handle P (handle_message W) fuel d origin.
End PrintingMsg.

(** [BridgeHandler.proxy_callback]: build the handler, then run its loop *)
Definition proxy_callback {S} (init : S) (handle : bytes -> Conn -> M S unit)
  (script : list Select) : list Event * Flow S :=
  loop handle script init.

(** what the policy was given, as what a forwarding policy sends *)
Definition deliveries (log : list Event) : list (Conn * bytes) :=
  flat_map (fun e => match e with
                     | Delivered d r => [(other r, d)]
                     | _ => []
                     end) log.

(** the handler state that a loop ends with, when the policy returned *)
Definition flow_state {S} (f : Flow S) : option S :=
  match f with
  | Continue s | Stop _ s => Some s
  | Hang => None
  end.

Lemma deliveries_app (l l' : list Event) :
  deliveries (l ++ l') = deliveries l ++ deliveries l'.
Proof. unfold deliveries. apply flat_map_app. Qed.

Lemma dummy_for_rlist (rl : list (Conn * (Exn + bytes))) (s : Dummy.State) :
  flow_state (snd (for_rlist Dummy.handle rl s))
  = Some (s ++ deliveries (fst (for_rlist Dummy.handle rl s))).
Proof.
  revert s. induction rl as [|[r [e|d]] rl IH]; intros s; simpl.
  - now rewrite app_nil_r.
  - now rewrite app_nil_r.
  - destruct d as [|b d]; simpl; [now rewrite app_nil_r|].
    change (Dummy.handle (b :: d) r s) with (Ret tt (s ++ [(other r, b :: d)])).
    cbv iota beta.
    specialize (IH (s ++ [(other r, b :: d)])). revert IH.
    destruct (for_rlist _ rl _) as [l f]. simpl. intros ->.
    now rewrite <- app_assoc.
Qed.

Lemma dummy_while_active (script : list Select) (s : Dummy.State) :
  flow_state (snd (while_active Dummy.handle script s))
  = Some (s ++ deliveries (fst (while_active Dummy.handle script s))).
Proof.
  revert s. induction script as [|sel script IH]; intros s; simpl.
  - now rewrite app_nil_r.
  - destruct (negb (is_nil (xlist sel)) || is_nil (rlist sel)); simpl;
      [now rewrite app_nil_r|].
    pose proof (dummy_for_rlist (rlist sel) s) as H. revert H.
    destruct (for_rlist _ (rlist sel) _) as [l [s'|why s'|]];
      simpl; intros H; try exact H.
    specialize (IH s'). revert IH.
    destruct (while_active _ script _) as [l' f]. simpl. intros ->.
    inversion H; subst. now rewrite deliveries_app, app_assoc.
Qed.

(** X1: under the forwarding policy, whatever the readiness script and however
    the loop ends, the handler has sent exactly the chunks that were
    delivered to it, each to the other socket, in the order of arrival, and
    nothing else; and the forwarding policy always returns. *)
Theorem forward_relays_every_chunk_in_order (script : list Select) (s : Dummy.State) :
  flow_state (snd (loop Dummy.handle script s))
  = Some (s ++ deliveries (fst (loop Dummy.handle script s))).
Proof.
  unfold loop. pose proof (dummy_while_active script s) as H. revert H.
  destruct (while_active _ script _) as [l [s'|why s'|]];
    simpl; intros H; try exact H.
  rewrite deliveries_app. simpl. now rewrite app_nil_r.
Qed.

(** a policy that always returns, and what the loop makes of it *)
Section ReturningPolicy.
Variable S : Type.
Variable handle : bytes -> Conn -> M S unit.
Variable step : bytes -> Conn -> S -> S.
Hypothesis handle_step : forall d r s, handle d r s = Ret tt (step d r s).

Definition replay (log : list Event) (s : S) : S :=
  fold_left (fun s e => match e with
                        | Delivered d r => step d r s
                        | _ => s
                        end) log s.

Lemma for_rlist_replay (rl : list (Conn * (Exn + bytes))) (s : S) :
  flow_state (snd (for_rlist handle rl s))
  = Some (replay (fst (for_rlist handle rl s)) s).
Proof.
  revert s. induction rl as [|[r [e|d]] rl IH]; intros s; simpl; auto.
  destruct d as [|b d]; simpl; auto.
  rewrite handle_step. specialize (IH (step (b :: d) r s)). revert IH.
  destruct (for_rlist _ rl _) as [l f]. simpl. now intros ->.
Qed.

Lemma while_active_replay (script : list Select) (s : S) :
  flow_state (snd (while_active handle script s))
  = Some (replay (fst (while_active handle script s)) s).
Proof.
  revert s. induction script as [|sel script IH]; intros s; simpl; auto.
  destruct (negb (is_nil (xlist sel)) || is_nil (rlist sel)); simpl; auto.
  pose proof (for_rlist_replay (rlist sel) s) as H. revert H.
  destruct (for_rlist _ (rlist sel) _) as [l [s'|why s'|]];
    simpl; intros H; try exact H.
  specialize (IH s'). revert IH.
  destruct (while_active _ script _) as [l' f]. simpl. intros ->.
  inversion H; subst. unfold replay. now rewrite fold_left_app.
Qed.

Lemma loop_replay (script : list Select) (s : S) :
  flow_state (snd (loop handle script s))
  = Some (replay (fst (loop handle script s)) s).
Proof.
  unfold loop. pose proof (while_active_replay script s) as H. revert H.
  destruct (while_active _ script _) as [l [s'|why s'|]];
    simpl; intros H; try exact H.
  unfold replay in *. now rewrite fold_left_app.
Qed.
End ReturningPolicy.

(** the lines that [PrintingBridgeHandler] prints for the chunks delivered *)
Definition printed (W : World) (log : list Event) : list Line :=
  flat_map (fun e => match e with
                     | Delivered d r => [LStr (cat (cat (direction W r) " ") (hex d))]
                     | _ => []
                     end) log.

Lemma printing_replay (W : World) (log : list Event) (s : PrintingBridge.State) :
  replay (fun d r s =>
            PrintingBridge.mk
              (PrintingBridge.sent s ++ [(other r, d)])
              (PrintingBridge.console s
               ++ [LStr (cat (cat (direction W r) " ") (hex d))])) log s
  = PrintingBridge.mk (PrintingBridge.sent s ++ deliveries log)
                      (PrintingBridge.console s ++ printed W log).
Proof.
  revert s. induction log as [|e log IH]; intros s; simpl.
  - rewrite !app_nil_r. now destruct s.
  - unfold replay in *. destruct e; simpl; rewrite IH; simpl;
      now rewrite <- ?app_assoc.
Qed.

Lemma hex_length (d : bytes) : String.length (hex d) = (2 * List.length d)%nat.
Proof. induction d as [|b d IH]; simpl; [reflexivity | rewrite IH; lia]. Qed.

(** X2: [PrintingBridgeHandler] sends what [DummyBridgeHandler] sends, the
    chunks delivered, unchanged and in order, each to the other socket, and
    prints one line per chunk: the direction, a space, and the chunk in
    hexadecimal, two digits per byte. *)
Theorem printing_handler_forwards_and_logs
  (W : World) (script : list Select) (s : PrintingBridge.State) :
  flow_state (snd (loop (PrintingBridge.handle W) script s))
  = Some (PrintingBridge.mk
            (PrintingBridge.sent s
             ++ deliveries (fst (loop (PrintingBridge.handle W) script s)))
            (PrintingBridge.console s
             ++ printed W (fst (loop (PrintingBridge.handle W) script s))))
  /\ forall d, String.length (hex d) = (2 * List.length d)%nat.
Proof.
  split; [|exact hex_length].
  rewrite <- printing_replay. apply loop_replay. reflexivity.
Qed.

(** ** Reassembly and dispatch in [MsgBridgeHandler] *)

(** what [PrintingMsgBridgeHandler] prints for one extracted frame: the
    notice for an id that the registry does not hold, the direction and the
    parsed message (and two empty lines) for a frame read to its end;
    nothing is defined for a frame that makes [handle] raise *)
Definition rendered (P : Protocol) (W : World) (origin : Conn) (m : Msg)
  : option (list Line) :=
  match msg_from_id P (id m) with
  | None => Some [LSorry (id m)]
  | Some ty =>
      match read P ty (data m) with
      | inr (j, pos) =>
          if (remaining (data m) pos =? 0)%nat
          then Some [LStr (direction W origin); LJson j; LBlank; LBlank]
          else None
      | inl _ => None
      end
  end.

Fixpoint rendered_all (P : Protocol) (W : World) (origin : Conn) (ms : list Msg)
  : option (list Line) :=
  match ms with
  | [] => Some []
  | m :: ms' =>
      match rendered P W origin m, rendered_all P W origin ms' with
      | Some a, Some b => Some (a ++ b)
      | _, _ => None
      end
  end.

(** the state of a [MsgBridgeHandler] once the lines [ls] are printed and
    [rest] is what is left in the buffer of [origin] *)
Definition dispatched {U} (origin : Conn) (rest : bytes) (ls : list Line)
  (s : Dispatch.State U) : Dispatch.State U :=
  Dispatch.set_buf origin rest
    (Dispatch.mk (Dispatch.buf_jeu s) (Dispatch.buf_ser s) (Dispatch.sent s)
       (Dispatch.console s ++ ls) (Dispatch.ext s)).

Ltac dispatch_fields :=
  cbn [Dispatch.buf Dispatch.set_buf Dispatch.buf_jeu Dispatch.buf_ser
       Dispatch.sent Dispatch.console Dispatch.ext].

Section PrintingMsgFacts.
Variable P : Protocol.
Variable W : World.
Variable origin : Conn.

Lemma printing_body (m : Msg) (ls : list Line) (s : PrintingMsg.State) :
  rendered P W origin m = Some ls ->
  (match msg_from_id P (id m) with
   | Some ty => Dispatch.on_known P (PrintingMsg.handle_message W) origin m ty
   | None => Dispatch.print (LSorry (id m))
   end) s
  = Ret tt (Dispatch.mk (Dispatch.buf_jeu s) (Dispatch.buf_ser s)
              (Dispatch.sent s) (Dispatch.console s ++ ls) (Dispatch.ext s)).
Proof.
  unfold rendered. destruct (msg_from_id P (id m)) as [ty|].
  - unfold Dispatch.on_known. destruct (read P ty (data m)) as [e|[j pos]];
      [discriminate|]. run. cbn [fst snd].
    destruct (remaining (data m) pos =? 0)%nat; [|discriminate].
    intros H. inversion H; subst. unfold PrintingMsg.handle_message, Dispatch.print.
    destruct s. run. dispatch_fields. cbn [negb]. now rewrite <- !app_assoc.
  - intros H. inversion H; subst. now destruct s.
Qed.

Lemma printing_drain (b rest : bytes) (ms : list Msg) :
  drains P (Conn_eqb origin coJeu) b ms rest ->
  forall (ls : list Line) (fuel : nat) (s : PrintingMsg.State),
    rendered_all P W origin ms = Some ls ->
    Dispatch.buf origin s = b -> (List.length ms <= fuel)%nat ->
    (msg <- Dispatch.pull P origin ;;
     Dispatch.while_msg P (PrintingMsg.handle_message W) fuel origin msg) s
    = Ret tt (dispatched origin rest ls s).
Proof.
  induction 1 as [b Hnone | b b' rest m ms Hsome Hdr IH];
    intros ls fuel s Hls Hb Hfuel.
  - simpl in Hls. inversion Hls; subst. unfold Dispatch.pull. run.
    rewrite Hnone. replace (Dispatch.while_msg _ _ fuel origin None) with
      (@ret PrintingMsg.State unit tt) by now destruct fuel.
    unfold dispatched. destruct s, origin; dispatch_fields;
      now rewrite app_nil_r.
  - simpl in Hls.
    destruct (rendered P W origin m) as [a|] eqn:Ha; [|discriminate].
    destruct (rendered_all P W origin ms) as [c|] eqn:Hc; [|discriminate].
    inversion Hls; subst ls.
    destruct fuel as [|fuel]; [simpl in Hfuel; lia|].
    unfold Dispatch.pull at 1. run. rewrite Hb, Hsome. run.
    cbn [Dispatch.while_msg]. unfold bind at 1.
    rewrite (@printing_body m a _ Ha). cbv iota beta.
    rewrite (IH c fuel _ eq_refl); [| now destruct s, origin | simpl in Hfuel; lia].
    unfold dispatched. destruct s, origin; dispatch_fields;
      now rewrite <- app_assoc.
Qed.
End PrintingMsgFacts.

Lemma printing_handle_chunk
  (P : Protocol) (W : World) (origin : Conn) (d rest : bytes) (ms : list Msg)
  (ls : list Line) (fuel : nat) (s : PrintingMsg.State) :
  drains P (Conn_eqb origin coJeu) (Dispatch.buf origin s ++ d) ms rest ->
  rendered_all P W origin ms = Some ls ->
  (List.length ms <= fuel)%nat ->
  PrintingMsg.handle P W fuel d origin s
  = Ret tt (Dispatch.set_buf origin rest
              (Dispatch.mk (Dispatch.buf_jeu s) (Dispatch.buf_ser s)
                 (Dispatch.sent s ++ [(other origin, d)])
                 (Dispatch.console s ++ ls) (Dispatch.ext s))).
Proof.
  intros Hdr Hls Hfuel. unfold PrintingMsg.handle, Dispatch.handle, Dispatch.sendall.
  unfold bind at 1 2. unfold modify.
  rewrite (@printing_drain P W origin _ rest ms Hdr ls fuel _ Hls);
    [| now destruct s, origin | exact Hfuel].
  unfold dispatched. now destruct s, origin.
Qed.

(** X3: [MsgBridgeHandler.handle] (here with the printing callback) forwards
    the chunk as it is, appends it to the buffer of its origin and then
    treats every complete frame of the buffer in order: a frame whose id is
    not in the registry is announced and skipped, a frame that is read to
    its end is handed to the callback, and what follows the last complete
    frame stays in the buffer for the next chunk.  A number of iterations
    equal to the number of frames is enough. *)
Theorem printing_handler_drains_chunk
  (P : Protocol) (W : World) (origin : Conn) (d rest : bytes) (ms : list Msg)
  (ls : list Line) (fuel : nat) (s : PrintingMsg.State) :
  drains P (Conn_eqb origin coJeu) (Dispatch.buf origin s ++ d) ms rest ->
  rendered_all P W origin ms = Some ls ->
  (List.length ms <= fuel)%nat ->
  PrintingMsg.handle P W fuel d origin s
  = Ret tt (Dispatch.set_buf origin rest
              (Dispatch.mk (Dispatch.buf_jeu s) (Dispatch.buf_ser s)
                 (Dispatch.sent s ++ [(other origin, d)])
                 (Dispatch.console s ++ ls) (Dispatch.ext s))).
Proof. apply printing_handle_chunk. Qed.

(** an announcement for the unknown type 999, a pong, and the first byte of
    a frame that is not complete *)
Definition mixed_chunk : bytes := Sample.unknown ++ Sample.pong ++ ["000"%byte].

Lemma printing_handler_drains_chunk_witness :
  PrintingMsg.handle Sample.protocol Sample.world 2 mixed_chunk coSer
    (Dispatch.init tt)
  = Ret tt (Dispatch.mk [] ["000"%byte] [(coJeu, mixed_chunk)]
              [LSorry 999; LStr "Server->Client"; LJson pong_message;
               LBlank; LBlank] tt).
Proof.
  apply (@printing_handler_drains_chunk Sample.protocol Sample.world coSer
           mixed_chunk ["000"%byte]
           [mkMsg 999 ["001"%byte] None; mkMsg 183 ["001"%byte] None]
           [LSorry 999; LStr "Server->Client"; LJson pong_message; LBlank; LBlank]
           2 (Dispatch.init tt)).
  - apply drains_frame with (b' := Sample.pong ++ ["000"%byte]); [reflexivity|].
    apply drains_frame with (b' := ["000"%byte]); [reflexivity|].
    apply drains_done. reflexivity.
  - reflexivity.
  - simpl. lia.
Defined.

(** X4: a frame that arrives in two reads is dispatched once, when its end
    arrives: if the buffer with the first chunk holds no complete frame,
    handling the two chunks one after the other prints what the frames of
    the whole would print, leaves the same tail in the buffer, and forwards
    the two chunks separately, each as it came. *)
Theorem frames_split_across_chunks_are_reassembled
  (P : Protocol) (W : World) (origin : Conn) (d1 d2 rest : bytes)
  (ms : list Msg) (ls : list Line) (fuel : nat) (s : PrintingMsg.State) :
  fromRaw P (Conn_eqb origin coJeu) (Dispatch.buf origin s ++ d1) = None ->
  drains P (Conn_eqb origin coJeu) ((Dispatch.buf origin s ++ d1) ++ d2) ms rest ->
  rendered_all P W origin ms = Some ls ->
  (List.length ms <= fuel)%nat ->
  (PrintingMsg.handle P W fuel d1 origin ;; PrintingMsg.handle P W fuel d2 origin) s
  = Ret tt (Dispatch.set_buf origin rest
              (Dispatch.mk (Dispatch.buf_jeu s) (Dispatch.buf_ser s)
                 (Dispatch.sent s ++ [(other origin, d1); (other origin, d2)])
                 (Dispatch.console s ++ ls) (Dispatch.ext s))).
Proof.
  intros Hnone Hdr Hls Hfuel. unfold bind.
  rewrite (@printing_handle_chunk P W origin d1 (Dispatch.buf origin s ++ d1) []
             [] fuel s (drains_done P _ _ Hnone) eq_refl (Nat.le_0_l fuel)).
  rewrite (@printing_handle_chunk P W origin d2 rest ms ls fuel _);
    [| now destruct s, origin | exact Hls | exact Hfuel].
  destruct s, origin; dispatch_fields; now rewrite ?app_nil_r, <- ?app_assoc.
Qed.

Lemma frames_split_across_chunks_are_reassembled_witness :
  (PrintingMsg.handle Sample.protocol Sample.world 1 (firstn 3 Sample.pong) coSer ;;
   PrintingMsg.handle Sample.protocol Sample.world 1 (skipn 3 Sample.pong) coSer)
    (Dispatch.init tt)
  = Ret tt (Dispatch.mk [] []
              [(coJeu, firstn 3 Sample.pong); (coJeu, skipn 3 Sample.pong)]
              [LStr "Server->Client"; LJson pong_message; LBlank; LBlank] tt).
Proof.
  apply (@frames_split_across_chunks_are_reassembled Sample.protocol Sample.world
           coSer (firstn 3 Sample.pong) (skipn 3 Sample.pong) []
           [mkMsg 183 ["001"%byte] None]
           [LStr "Server->Client"; LJson pong_message; LBlank; LBlank]
           1 (Dispatch.init tt)).
  - reflexivity.
  - apply drains_frame with (b' := []); [reflexivity|].
    apply drains_done. reflexivity.
  - reflexivity.
  - simpl. lia.
Defined.

Section DispatchForwarding.
Variable P : Protocol.
Variable U : Type.
Variable hm : Json -> Conn -> M (Dispatch.State U) unit.
Hypothesis hm_keeps_sent : forall j o, keeps (@Dispatch.sent U) (hm j o).

Lemma dispatch_pull_keeps_sent (origin : Conn) :
  keeps (@Dispatch.sent U) (Dispatch.pull P origin).
Proof.
  unfold Dispatch.pull. keeps_step; [keeps_step|].
  destruct (fromRaw P _ _) as [[m rest]|]; [|keeps_step].
  keeps_step; [|keeps_step].
  apply keeps_modify. intros s. now destruct origin.
Qed.

Lemma dispatch_while_keeps_sent (fuel : nat) (origin : Conn) (msg : option Msg) :
  keeps (@Dispatch.sent U) (Dispatch.while_msg P hm fuel origin msg).
Proof.
  revert msg. induction fuel as [|fuel IH]; intros [m|]; simpl;
    try keeps_step; try (now intros s).
  - destruct (msg_from_id P (id m)) as [ty|].
    + unfold Dispatch.on_known. keeps_step; [keeps_step|].
      destruct (negb _); [keeps_step | apply hm_keeps_sent].
    + unfold Dispatch.print. keeps_step.
  - keeps_step; [apply dispatch_pull_keeps_sent | apply IH].
Qed.

Lemma dispatch_handle_sends_chunk (fuel : nat) (d : bytes) (origin : Conn)
  (s : Dispatch.State U) :
  match Dispatch.handle P hm fuel d origin s with
  | Ret _ s' | Raise _ s' =>
      Dispatch.sent s' = Dispatch.sent s ++ [(other origin, d)]
  | OutOfFuel => True
  end.
Proof.
  unfold Dispatch.handle.
  set (rest := (_ ;; _ <- Dispatch.pull P origin ;; _)).
  assert (Hrest : keeps (@Dispatch.sent U) rest).
  { unfold rest. keeps_step.
    - apply keeps_modify. intros s0. now destruct origin.
    - keeps_step; [apply dispatch_pull_keeps_sent|].
      apply dispatch_while_keeps_sent. }
  unfold bind at 1. unfold Dispatch.sendall, modify.
  specialize (Hrest (Dispatch.mk (Dispatch.buf_jeu s) (Dispatch.buf_ser s)
    (Dispatch.sent s ++ [(other origin, d)]) (Dispatch.console s) (Dispatch.ext s))).
  destruct (rest _); auto.
Qed.
End DispatchForwarding.

Lemma printing_callback_keeps_sent (W : World) (j : Json) (o : Conn) :
  keeps (@Dispatch.sent unit) (PrintingMsg.handle_message W j o).
Proof. unfold PrintingMsg.handle_message, Dispatch.print. repeat keeps_step. Qed.

(** X5: in [MsgBridgeHandler.handle] the pass-through does not depend on the
    parsing: with a callback that sends nothing, whether [handle] returns or
    raises (an unread byte, a failing [protocol.read]), what it has sent is
    the chunk, unchanged, to the other socket, and nothing else. *)
Theorem dispatch_forwards_whatever_the_parse
  (P : Protocol) (U : Type) (hm : Json -> Conn -> M (Dispatch.State U) unit)
  (fuel : nat) (d : bytes) (origin : Conn) (s : Dispatch.State U) :
  (forall j o, keeps (@Dispatch.sent U) (hm j o)) ->
  match Dispatch.handle P hm fuel d origin s with
  | Ret _ s' | Raise _ s' =>
      Dispatch.sent s' = Dispatch.sent s ++ [(other origin, d)]
  | OutOfFuel => True
  end.
Proof. intros H. now apply dispatch_handle_sends_chunk. Qed.

Lemma dispatch_forwards_whatever_the_parse_witness :
  exists s',
    PrintingMsg.handle Sample.protocol Sample.world 3 (Sample.msg_bytes fat_ping)
      coJeu (Dispatch.init tt) = Raise AssertionError s'
    /\ Dispatch.sent s' = [(coSer, Sample.msg_bytes fat_ping)].
Proof.
  pose proof (@dispatch_forwards_whatever_the_parse Sample.protocol unit
                (PrintingMsg.handle_message Sample.world) 3
                (Sample.msg_bytes fat_ping) coJeu (Dispatch.init tt)
                (printing_callback_keeps_sent Sample.world)) as H.
  unfold PrintingMsg.handle.
  destruct (Dispatch.handle Sample.protocol
              (PrintingMsg.handle_message Sample.world) 3
              (Sample.msg_bytes fat_ping) coJeu (Dispatch.init tt))
    as [[] s'|e s'|] eqn:E; try discriminate E.
  exists s'. split; [|exact H].
  vm_compute in E. inversion E. reflexivity.
Defined.

(** ** Termination of the frame loop *)

Lemma sample_take_length (n : nat) (l a r : bytes) :
  Sample.take n l = Some (a, r) -> List.length l = (n + List.length r)%nat.
Proof.
  unfold Sample.take. destruct (n <=? List.length l)%nat eqn:E; [|discriminate].
  intros H. inversion H; subst. apply Nat.leb_le in E.
  rewrite length_skipn. lia.
Qed.

(** the sample extraction consumes at least the four bytes of id and length *)
Lemma sample_fromRaw_consumes (fc : bool) (b rest : bytes) (m : Msg) :
  Sample.fromRaw fc b = Some (m, rest) ->
  (List.length rest < List.length b)%nat.
Proof.
  unfold Sample.fromRaw.
  destruct (Sample.take 2 b) as [[i b1]|] eqn:E1; [|discriminate].
  apply sample_take_length in E1.
  destruct fc.
  - destruct (Sample.take 4 b1) as [[c b2]|] eqn:E2; [|discriminate].
    apply sample_take_length in E2.
    destruct (Sample.take 2 b2) as [[n b3]|] eqn:E3; [|discriminate].
    apply sample_take_length in E3.
    destruct (Sample.take _ b3) as [[d r]|] eqn:E4; [|discriminate].
    apply sample_take_length in E4. intros H. inversion H; subst. lia.
  - destruct (Sample.take 2 b1) as [[n b3]|] eqn:E3; [|discriminate].
    apply sample_take_length in E3.
    destruct (Sample.take _ b3) as [[d r]|] eqn:E4; [|discriminate].
    apply sample_take_length in E4. intros H. inversion H; subst. lia.
Qed.

(** X6: [MsgBridgeHandler.handle] leaves its [while] loop on every chunk:
    provided that extraction consumes bytes from the front of the buffer and
    that the callback returns or raises without touching the buffers, as
    many iterations as there are bytes at hand are enough for [handle] to
    return or raise.  Frames with unknown ids or unread bytes do not keep it
    in the loop. *)
Theorem dispatch_handle_terminates
  (P : Protocol) (U : Type) (hm : Json -> Conn -> M (Dispatch.State U) unit)
  (origin : Conn) (fuel : nat) (d : bytes) (s : Dispatch.State U) :
  (forall fc b m rest,
      fromRaw P fc b = Some (m, rest) -> (List.length rest < List.length b)%nat) ->
  (forall j o s, hm j o s <> OutOfFuel) ->
  (forall j o, keeps (Dispatch.buf origin) (hm j o)) ->
  (List.length (Dispatch.buf origin s) + List.length d <= fuel)%nat ->
  Dispatch.handle P hm fuel d origin s <> OutOfFuel.
Proof. intros H1 H2 H3 H4. now apply dispatch_handle_ends. Qed.

Lemma printing_callback_keeps_buf (W : World) (origin : Conn) (j : Json) (o : Conn) :
  keeps (@Dispatch.buf unit origin) (PrintingMsg.handle_message W j o).
Proof.
  unfold PrintingMsg.handle_message, Dispatch.print.
  repeat (apply keeps_bind; [|intros ?]);
    apply keeps_modify; intros s; now destruct origin.
Qed.

Lemma dispatch_handle_terminates_witness :
  (List.length (Dispatch.buf coSer (Dispatch.init tt)) + List.length mixed_chunk
   <= 11)%nat
  /\ PrintingMsg.handle Sample.protocol Sample.world 11 mixed_chunk coSer
       (Dispatch.init tt) <> OutOfFuel.
Proof.
  split; [vm_compute; repeat constructor|].
  apply (@dispatch_handle_terminates Sample.protocol unit
           (PrintingMsg.handle_message Sample.world) coSer 11 mixed_chunk
           (Dispatch.init tt)).
  - intros fc b m rest. apply sample_fromRaw_consumes.
  - intros j o s. discriminate.
  - intros j o. apply printing_callback_keeps_buf.
  - vm_compute. repeat constructor.
Defined.

(** ** The bookkeeping of [InjectorBridgeHandler] *)

(** a client frame as the handler records it: [msg.count += k] *)
Definition renumbered (k : Z) (m : Msg) : Msg :=
  match count m with
  | Some c => set_count (c + k) m
  | None => m
  end.

(** [self.counter] after the frames [ms] have been recorded *)
Definition last_counter (c0 : Z) (ms : list Msg) : Z :=
  fold_left (fun c m => match count m with Some c' => c' | None => c end) ms c0.

Ltac injector_run :=
  cbv beta iota zeta delta
    [bind modify get ret raise lift when
     Injector.print Injector.sendall Injector.set_counter Injector.set_db
     Injector.set_injected_to_client Injector.set_injected_to_server
     Injector.renumber Injector.record_and_dispatch Injector.handle_message
     Injector.buf_jeu Injector.buf_ser Injector.injected_to_client
     Injector.injected_to_server Injector.counter Injector.db Injector.sent
     Injector.console Conn_eqb fst snd negb].

Section ClientFrames.
Variable P : Protocol.
Variable W : World.
Variable db_size : nat.
Variable dumper : option Dumper.

Lemma injector_on_known_from_client (m : Msg) (ty : MsgType P) (j : Json)
  (pos : nat) (c : Z) (s : Injector.State) :
  read P ty (data m) = inr (j, pos) ->
  remaining (data m) pos = 0%nat \/ remaining (data m) pos = 48%nat ->
  count m = Some c ->
  dumped dumper
    (set_count (c + (Injector.injected_to_server s - Injector.injected_to_client s)) m) ->
  Injector.on_known P W db_size dumper coJeu m ty s
  = Ret tt (Injector.mk (Injector.buf_jeu s) (Injector.buf_ser s)
              (Injector.injected_to_client s) (Injector.injected_to_server s)
              (c + (Injector.injected_to_server s - Injector.injected_to_client s))
              (Injector.deque_append db_size (Injector.db s)
                 (set_count
                    (c + (Injector.injected_to_server s
                          - Injector.injected_to_client s)) m))
              (Injector.sent s)
              (Injector.console s
               ++ [LStr (direction W coJeu); LJson j; LBlank; LBlank])).
Proof.
  intros Hread Hrem Hc Hdump. unfold Injector.on_known. rewrite Hread.
  destruct s. injector_run.
  replace ((remaining (data m) pos =? 0)%nat || (remaining (data m) pos =? 48)%nat)
    with true by (destruct Hrem as [-> | ->]; reflexivity).
  rewrite Hc. injector_run. unfold dumped in Hdump.
  cbn [Injector.injected_to_server Injector.injected_to_client] in Hdump.
  destruct dumper as [dm|].
  - rewrite Hdump. injector_run. now rewrite <- !app_assoc.
  - injector_run. now rewrite <- !app_assoc.
Qed.

Lemma injector_drain_from_client (b rest : bytes) (ms : list Msg) :
  drains P true b ms rest ->
  forall (k : Z) (fuel : nat) (d : bytes) (s : Injector.State),
    Forall (decoded P) ms ->
    Forall (fun m => count m <> None) ms ->
    Forall (fun m => dumped dumper (renumbered k m)) ms ->
    Injector.buf_jeu s = b ->
    Injector.injected_to_server s - Injector.injected_to_client s = k ->
    (List.length ms <= fuel)%nat ->
    exists s',
      (msg <- Injector.pull P coJeu ;;
       Injector.while_msg P W db_size dumper fuel d coJeu msg) s = Ret tt s'
      /\ Injector.db s'
         = fold_left (Injector.deque_append db_size) (map (renumbered k) ms)
                     (Injector.db s)
      /\ Injector.counter s'
         = last_counter (Injector.counter s) (map (renumbered k) ms)
      /\ Injector.sent s' = Injector.sent s
      /\ Injector.injected_to_server s' = Injector.injected_to_server s
      /\ Injector.injected_to_client s' = Injector.injected_to_client s
      /\ Injector.buf_jeu s' = rest.
Proof.
  induction 1 as [b Hnone | b b' rest m ms Hsome Hdr IH];
    intros k fuel d s Hdec Hcount Hdump Hb Hk Hfuel.
  - exists s. unfold Injector.pull. run.
    change (Conn_eqb coJeu coJeu) with true.
    change (Injector.buf coJeu s) with (Injector.buf_jeu s).
    rewrite Hb, Hnone. simpl. repeat split; auto. now destruct fuel.
  - inversion Hdec as [|? ? (ty & j & pos & Hid & Hread & Hrem) Hdec']; subst.
    inversion Hcount as [|? ? Hc Hcount']; subst.
    inversion Hdump as [|? ? Hd Hdump']; subst.
    destruct (count m) as [c|] eqn:Ec; [|congruence].
    destruct fuel as [|fuel]; [simpl in Hfuel; lia|].
    unfold Injector.pull at 1. run.
    change (Conn_eqb coJeu coJeu) with true.
    change (Injector.buf coJeu s) with (Injector.buf_jeu s).
    rewrite Hsome. run. simpl Injector.while_msg. rewrite Hid. run.
    unfold renumbered in Hd. rewrite Ec in Hd.
    rewrite (@injector_on_known_from_client m ty j pos c _ Hread Hrem Ec);
      [| destruct s; exact Hd].
    edestruct (IH (Injector.injected_to_server s - Injector.injected_to_client s)
                 fuel d) as (s' & Hrun & Hdb & Hcnt & Hsent & Hs & Hcl & Hbuf);
      [exact Hdec' | exact Hcount' | exact Hdump' | | | |
       exists s'; split; [exact Hrun|]].
    + reflexivity.
    + now destruct s.
    + simpl in Hfuel. lia.
    + assert (Er : renumbered
                     (Injector.injected_to_server s - Injector.injected_to_client s) m
                   = set_count
                       (c + (Injector.injected_to_server s
                             - Injector.injected_to_client s)) m)
        by (unfold renumbered; now rewrite Ec).
      cbn [Injector.db Injector.counter Injector.sent Injector.injected_to_server
           Injector.injected_to_client Injector.buf_jeu Injector.buf_ser
           Injector.console Injector.set_buf] in Hdb, Hcnt, Hsent, Hs, Hcl.
      unfold last_counter in *. cbn [map fold_left]. rewrite Er.
      cbn [count set_count]. rewrite Hdb, Hcnt, Hsent, Hs, Hcl.
      repeat split; auto.
Qed.
End ClientFrames.

(** X7: a chunk from the client that holds decoded frames is sent on to the
    server unchanged, while the handler records each frame with its counter
    raised by [injected_to_server - injected_to_client]: the history receives
    the renumbered frames in order (through the bounded deque), and
    [self.counter] ends as the renumbered counter of the last frame.  The
    two injection counts are left as they were. *)
Theorem client_frames_recorded_renumbered
  (P : Protocol) (W : World) (db_size : nat) (dumper : option Dumper)
  (d rest : bytes) (ms : list Msg) (fuel : nat) (s : Injector.State) :
  drains P true (Injector.buf_jeu s ++ d) ms rest ->
  Forall (decoded P) ms ->
  Forall (fun m => count m <> None) ms ->
  Forall (fun m =>
            dumped dumper
              (renumbered (Injector.injected_to_server s
                           - Injector.injected_to_client s) m)) ms ->
  (List.length ms <= fuel)%nat ->
  exists s',
    Injector.handle P W db_size dumper fuel d coJeu s = Ret tt s'
    /\ Injector.sent s' = Injector.sent s ++ [(coSer, d)]
    /\ Injector.db s'
       = fold_left (Injector.deque_append db_size)
           (map (renumbered (Injector.injected_to_server s
                             - Injector.injected_to_client s)) ms)
           (Injector.db s)
    /\ Injector.counter s'
       = last_counter (Injector.counter s)
           (map (renumbered (Injector.injected_to_server s
                             - Injector.injected_to_client s)) ms)
    /\ Injector.injected_to_server s' = Injector.injected_to_server s
    /\ Injector.injected_to_client s' = Injector.injected_to_client s
    /\ Injector.buf_jeu s' = rest.
Proof.
  intros Hdr Hdec Hcount Hdump Hfuel.
  unfold Injector.handle, Injector.sendall. run.
  edestruct (@injector_drain_from_client P W db_size dumper _ rest ms Hdr
               (Injector.injected_to_server s - Injector.injected_to_client s)
               fuel d)
    as (s' & Hrun & Hdb & Hcnt & Hsent & Hs & Hcl & Hbuf);
    [exact Hdec | exact Hcount | exact Hdump | | | exact Hfuel |].
  3: { exists s'. split; [exact Hrun|].
       rewrite Hdb, Hcnt, Hsent, Hs, Hcl, Hbuf. now destruct s. }
  - reflexivity.
  - now destruct s.
Qed.

Lemma client_frames_recorded_renumbered_witness :
  exists s',
    Injector.handle Sample.protocol Sample.world 1 None 2
      (Sample.ping 5 ++ Sample.ping 6) coJeu
      (Injector.set_injected_to_server 3 Injector.init) = Ret tt s'
    /\ Injector.sent s' = [(coSer, Sample.ping 5 ++ Sample.ping 6)]
    /\ Injector.db s' = [mkMsg 182 ["001"%byte] (Some 9)]
    /\ Injector.counter s' = 9.
Proof.
  destruct (@client_frames_recorded_renumbered Sample.protocol Sample.world 1 None
              (Sample.ping 5 ++ Sample.ping 6) []
              [mkMsg 182 ["001"%byte] (Some 5); mkMsg 182 ["001"%byte] (Some 6)]
              2 (Injector.set_injected_to_server 3 Injector.init))
    as (s' & Hrun & Hsent & Hdb & Hcnt & _).
  - apply drains_frame with (b' := Sample.ping 6); [reflexivity|].
    apply drains_frame with (b' := []); [reflexivity|].
    apply drains_done. reflexivity.
  - repeat constructor;
      exists {| Sample.name := "BasicPingMessage"; Sample.size := 1 |},
             (JDict [("__type__", JStr "BasicPingMessage")]), 1%nat;
      repeat split; left; reflexivity.
  - repeat constructor; discriminate.
  - repeat constructor.
  - simpl. lia.
  - exists s'. repeat split; assumption.
Defined.

(** [send_to_server] on each message of a list, one after the other *)
Fixpoint inject_all (P : Protocol) (ms : list Msg) : M Injector.State unit :=
  match ms with
  | [] => ret tt
  | m :: ms' => Injector.send_to_server P (Structured m) ;; inject_all P ms'
  end.

(** Messages injected toward the server one after the other, with no
    frame observed in between, all carry the same counter,
    [self.counter + 1]: each injection adds 1 to [injected_to_server] and
    none moves [self.counter]. *)
Theorem injections_in_a_row_share_a_counter
  (P : Protocol) (ms : list Msg) (s : Injector.State) :
  exists s',
    inject_all P ms s = Ret tt s'
    /\ Injector.sent s'
       = Injector.sent s
         ++ map (fun m => (coSer, msg_bytes P (set_count (Injector.counter s + 1) m))) ms
    /\ Injector.injected_to_server s'
       = Injector.injected_to_server s + Z.of_nat (List.length ms)
    /\ Injector.counter s' = Injector.counter s
    /\ Injector.injected_to_client s' = Injector.injected_to_client s
    /\ Injector.db s' = Injector.db s.
Proof.
  revert s. induction ms as [|m ms IH]; intros s.
  - exists s. simpl. rewrite app_nil_r. repeat split; auto. lia.
  - cbn [inject_all]. unfold bind. rewrite injector_send_to_server_msg.
    destruct (IH (Injector.mk (Injector.buf_jeu s) (Injector.buf_ser s)
                    (Injector.injected_to_client s)
                    (Injector.injected_to_server s + 1) (Injector.counter s)
                    (Injector.db s)
                    (Injector.sent s
                     ++ [(coSer, msg_bytes P (set_count (Injector.counter s + 1) m))])
                    (Injector.console s)))
      as (s' & Hrun & Hsent & Hs & Hc & Hcl & Hdb).
    exists s'. split; [exact Hrun|]. simpl in *.
    rewrite Hsent, Hs, Hc, Hcl, Hdb, <- app_assoc. repeat split; auto. lia.
Qed.

(** ** What [InjectorBridgeHandler.handle] keeps *)

(** an observation [f] of the state that the frame loop of [origin] cannot
    change: it does not depend on the buffer of [origin], on the counter, on
    the history, on what was sent or printed *)
Section InjectorKeeps.
Variable P : Protocol.
Variable W : World.
Variable db_size : nat.
Variable dumper : option Dumper.
Variable origin : Conn.
Variable X : Type.
Variable f : Injector.State -> X.
Hypothesis f_buf : forall b s, f (Injector.set_buf origin b s) = f s.
Hypothesis f_counter : forall z s, f (Injector.set_counter z s) = f s.
Hypothesis f_db : forall l s, f (Injector.set_db l s) = f s.
Hypothesis f_sent :
  forall x s, f (Injector.mk (Injector.buf_jeu s) (Injector.buf_ser s)
                   (Injector.injected_to_client s) (Injector.injected_to_server s)
                   (Injector.counter s) (Injector.db s) x (Injector.console s))
              = f s.
Hypothesis f_console :
  forall x s, f (Injector.mk (Injector.buf_jeu s) (Injector.buf_ser s)
                   (Injector.injected_to_client s) (Injector.injected_to_server s)
                   (Injector.counter s) (Injector.db s) (Injector.sent s) x)
              = f s.

Lemma injector_print_keeps (l : Line) : keeps f (Injector.print l).
Proof. apply keeps_modify. intros s. apply f_console. Qed.

Lemma injector_pull_keeps : keeps f (Injector.pull P origin).
Proof.
  unfold Injector.pull. apply keeps_bind; [apply keeps_get | intros s0].
  destruct (fromRaw P _ _) as [[m rest]|]; [|apply keeps_ret].
  apply keeps_bind; [|intros ?; apply keeps_ret].
  apply keeps_modify. intros s. apply f_buf.
Qed.

Lemma injector_on_known_keeps (m : Msg) (ty : MsgType P) :
  keeps f (Injector.on_known P W db_size dumper origin m ty).
Proof.
  unfold Injector.on_known, Injector.record_and_dispatch.
  apply keeps_bind; [apply keeps_lift | intros r].
  destruct (negb _); [apply keeps_raise|].
  apply keeps_bind; [|intros m'].
  { unfold Injector.renumber. destruct (Conn_eqb origin coJeu).
    - destruct (count m); [|apply keeps_raise].
      apply keeps_bind; [apply keeps_get | intros s0].
      apply keeps_bind; [|intros ?; apply keeps_ret].
      apply keeps_modify. intros s. apply f_counter.
    - apply keeps_bind; [|intros ?; apply keeps_ret].
      apply keeps_modify. intros s. apply f_counter. }
  apply keeps_bind; [apply keeps_modify; intros s; apply f_db | intros ?].
  apply keeps_bind; [|intros ?].
  { destruct dumper as [dm|]; [|apply keeps_ret].
    destruct (dump dm m'); [apply keeps_raise | apply keeps_ret]. }
  unfold Injector.handle_message.
  repeat (apply keeps_bind; [apply injector_print_keeps | intros ?]).
  apply injector_print_keeps.
Qed.

Lemma injector_while_keeps (fuel : nat) (d : bytes) (msg : option Msg) :
  keeps f (Injector.while_msg P W db_size dumper fuel d origin msg).
Proof.
  revert msg. induction fuel as [|fuel IH]; intros [m|]; simpl;
    try apply keeps_ret; try (now intros s).
  destruct (msg_from_id P (id m)) as [ty|].
  - apply keeps_bind; [apply injector_on_known_keeps | intros ?].
    apply keeps_bind; [apply injector_pull_keeps | intros ?]. apply IH.
  - apply keeps_bind; [apply injector_print_keeps | intros ?]. apply IH.
Qed.

Lemma injector_handle_keeps (fuel : nat) (d : bytes) :
  keeps f (Injector.handle P W db_size dumper fuel d origin).
Proof.
  unfold Injector.handle.
  apply keeps_bind; [apply keeps_modify; intros s; apply f_sent | intros ?].
  apply keeps_bind; [apply keeps_modify; intros s; apply f_buf | intros ?].
  apply keeps_bind; [apply injector_pull_keeps | intros ?].
  apply injector_while_keeps.
Qed.
End InjectorKeeps.

(** X8: handling a chunk never changes the two injection counts, nor the
    buffer of the other direction, whether [handle] returns or raises: the
    counts move only in [send_to_client] and [send_to_server], and each
    direction is reassembled in its own buffer. *)
Theorem handle_keeps_injection_counts
  (P : Protocol) (W : World) (db_size : nat) (dumper : option Dumper)
  (fuel : nat) (d : bytes) (origin : Conn) (s : Injector.State) :
  match Injector.handle P W db_size dumper fuel d origin s with
  | Ret _ s' | Raise _ s' =>
      Injector.injected_to_server s' = Injector.injected_to_server s
      /\ Injector.injected_to_client s' = Injector.injected_to_client s
      /\ Injector.buf (other origin) s' = Injector.buf (other origin) s
  | OutOfFuel => True
  end.
Proof.
  pose proof (@injector_handle_keeps P W db_size dumper origin _
                Injector.injected_to_server) as H1.
  pose proof (@injector_handle_keeps P W db_size dumper origin _
                Injector.injected_to_client) as H2.
  pose proof (@injector_handle_keeps P W db_size dumper origin _
                (Injector.buf (other origin))) as H3.
  specialize (H1 ltac:(intros; now destruct origin) ltac:(reflexivity)
                 ltac:(reflexivity) ltac:(reflexivity) ltac:(reflexivity) fuel d s).
  specialize (H2 ltac:(intros; now destruct origin) ltac:(reflexivity)
                 ltac:(reflexivity) ltac:(reflexivity) ltac:(reflexivity) fuel d s).
  specialize (H3 ltac:(intros; now destruct origin)
                 ltac:(intros; now destruct origin)
                 ltac:(intros; now destruct origin)
                 ltac:(intros; now destruct origin)
                 ltac:(intros; now destruct origin) fuel d s).
  destruct (Injector.handle P W db_size dumper fuel d origin s); auto.
Qed.

Lemma deque_append_length (n : nat) (q : list Msg) (m : Msg) :
  List.length (Injector.deque_append n q m) = Nat.min n (Datatypes.S (List.length q)).
Proof.
  unfold Injector.deque_append. cbv zeta.
  rewrite length_skipn, length_app. simpl. lia.
Qed.

Lemma deque_append_full (n : nat) (q : list Msg) (m : Msg) :
  List.length q = n -> (0 < n)%nat ->
  Injector.deque_append n q m = tl q ++ [m].
Proof.
  intros Hq Hn. unfold Injector.deque_append. cbv zeta.
  rewrite length_app. simpl. replace (List.length q + 1 - n)%nat with 1%nat by lia.
  destruct q as [|a q]; [simpl in Hq; lia | reflexivity].
Qed.

Lemma deque_append_room (n : nat) (q : list Msg) (m : Msg) :
  (List.length q < n)%nat -> Injector.deque_append n q m = q ++ [m].
Proof.
  intros Hq. unfold Injector.deque_append. cbv zeta.
  rewrite length_app. simpl. now replace (List.length q + 1 - n)%nat with 0%nat by lia.
Qed.

Section HistoryBound.
Variable P : Protocol.
Variable W : World.
Variable db_size : nat.
Variable dumper : option Dumper.

Definition bounded (s : Injector.State) : Prop :=
  (List.length (Injector.db s) <= db_size)%nat.

(** [m] keeps the history within its bound *)
Definition stays_bounded {A} (m : M Injector.State A) : Prop :=
  forall s, bounded s ->
            match m s with
            | Ret _ s' | Raise _ s' => bounded s'
            | OutOfFuel => True
            end.

Lemma stays_bounded_keeps {A} (m : M Injector.State A) :
  keeps Injector.db m -> stays_bounded m.
Proof.
  intros H s Hs. specialize (H s). unfold bounded in *.
  destruct (m s); auto; now rewrite H.
Qed.

Lemma stays_bounded_bind {A B} (m : M Injector.State A) (k : A -> M Injector.State B) :
  stays_bounded m -> (forall a, stays_bounded (k a)) -> stays_bounded (bind m k).
Proof.
  intros Hm Hk s Hs. unfold bind. specialize (Hm s Hs).
  destruct (m s) as [a s1|e s1|]; auto. apply Hk, Hm.
Qed.

Lemma on_known_stays_bounded (origin : Conn) (m : Msg) (ty : MsgType P) :
  stays_bounded (Injector.on_known P W db_size dumper origin m ty).
Proof.
  unfold Injector.on_known, Injector.record_and_dispatch.
  apply stays_bounded_bind; [apply stays_bounded_keeps, keeps_lift | intros r].
  destruct (negb _); [apply stays_bounded_keeps, keeps_raise|].
  apply stays_bounded_bind; [|intros m'].
  { apply stays_bounded_keeps. unfold Injector.renumber.
    destruct (Conn_eqb origin coJeu).
    - destruct (count m); [|apply keeps_raise]. repeat keeps_step.
    - repeat keeps_step. }
  apply stays_bounded_bind; [|intros ?].
  { intros s _. unfold modify, bounded. simpl.
    rewrite deque_append_length. lia. }
  apply stays_bounded_keeps.
  apply keeps_bind; [|intros ?].
  { destruct dumper as [dm|]; [|apply keeps_ret].
    destruct (dump dm m'); [apply keeps_raise | apply keeps_ret]. }
  unfold Injector.handle_message, Injector.print. repeat keeps_step.
Qed.

Lemma pull_keeps_db (origin : Conn) : keeps Injector.db (Injector.pull P origin).
Proof.
  unfold Injector.pull. keeps_step; [keeps_step|].
  destruct (fromRaw P _ _) as [[m rest]|]; [|keeps_step].
  keeps_step; [|keeps_step].
  apply keeps_modify. intros s. now destruct origin.
Qed.

Lemma while_stays_bounded (fuel : nat) (d : bytes) (origin : Conn)
  (msg : option Msg) :
  stays_bounded (Injector.while_msg P W db_size dumper fuel d origin msg).
Proof.
  revert msg. induction fuel as [|fuel IH]; intros [m|]; simpl;
    try (now intros s Hs).
  destruct (msg_from_id P (id m)) as [ty|].
  - apply stays_bounded_bind; [apply on_known_stays_bounded | intros ?].
    apply stays_bounded_bind; [apply stays_bounded_keeps, pull_keeps_db | intros ?].
    apply IH.
  - apply stays_bounded_bind; [|intros ?; apply IH].
    apply stays_bounded_keeps. unfold Injector.print. keeps_step.
Qed.

Lemma handle_stays_bounded (fuel : nat) (d : bytes) (origin : Conn) :
  stays_bounded (Injector.handle P W db_size dumper fuel d origin).
Proof.
  unfold Injector.handle.
  apply stays_bounded_bind;
    [apply stays_bounded_keeps; unfold Injector.sendall; keeps_step | intros ?].
  apply stays_bounded_bind; [|intros ?].
  { apply stays_bounded_keeps, keeps_modify. intros s. now destruct origin. }
  apply stays_bounded_bind; [apply stays_bounded_keeps, pull_keeps_db | intros ?].
  apply while_stays_bounded.
Qed.
End HistoryBound.

(** X9: the history of decoded frames never holds more than [db_size]
    entries: if it is within the bound before a chunk is handled, it is
    within the bound afterwards, whether [handle] returns or raises.  An
    append to a full history drops the oldest entry and puts the new one
    last; an append to a history with room only adds the new entry. *)
Theorem history_stays_bounded
  (P : Protocol) (W : World) (db_size : nat) (dumper : option Dumper)
  (fuel : nat) (d : bytes) (origin : Conn) (s : Injector.State) :
  (List.length (Injector.db s) <= db_size)%nat ->
  match Injector.handle P W db_size dumper fuel d origin s with
  | Ret _ s' | Raise _ s' => (List.length (Injector.db s') <= db_size)%nat
  | OutOfFuel => True
  end
  /\ (forall q m, List.length q = db_size -> (0 < db_size)%nat ->
                  Injector.deque_append db_size q m = tl q ++ [m])
  /\ (forall q m, (List.length q < db_size)%nat ->
                  Injector.deque_append db_size q m = q ++ [m]).
Proof.
  intros Hs. split; [|split].
  - exact (@handle_stays_bounded P W db_size dumper fuel d origin s Hs).
  - intros q m. apply deque_append_full.
  - intros q m. apply deque_append_room.
Qed.

Lemma history_stays_bounded_witness :
  exists s',
    Injector.handle Sample.protocol Sample.world 2 None 3
      (Sample.pong ++ Sample.pong ++ Sample.pong) coSer Injector.init = Ret tt s'
    /\ (List.length (Injector.db s') <= 2)%nat.
Proof.
  destruct (@history_stays_bounded Sample.protocol Sample.world 2 None 3
              (Sample.pong ++ Sample.pong ++ Sample.pong) coSer Injector.init)
    as (H & _).
  - simpl. lia.
  - destruct (Injector.handle Sample.protocol Sample.world 2 None 3
                (Sample.pong ++ Sample.pong ++ Sample.pong) coSer Injector.init)
      as [[] s'|e s'|] eqn:E; try (vm_compute in E; discriminate E).
    exists s'. split; [reflexivity | exact H].
Defined.

(** ** What [LucInjector] keeps *)

(** an observation [f] of the state and the updates that leave it alone;
    each lemma below rests on the hypotheses for the updates that the code
    in question performs *)
Section LucKeeps.
Variable P : Protocol.
Variable W : World.
Variable time : nat -> float.
Variable items : list Z.
Variable origin : Conn.
Variable X : Type.
Variable f : Luc.State -> X.
Hypothesis f_buf : forall b s, f (Luc.set_buf origin b s) = f s.
Hypothesis f_injected : forall z s, f (Luc.set_injected_to_server z s) = f s.
Hypothesis f_injections : forall z s, f (Luc.set_injections z s) = f s.
Hypothesis f_script : forall x s, f (Luc.set_script x s) = f s.
Hypothesis f_itemsleft : forall l s, f (Luc.set_itemsleft l s) = f s.
Hypothesis f_timer : forall t s, f (Luc.set_timer t s) = f s.
Hypothesis f_sent :
  forall x s, f (Luc.mk (Luc.buf_jeu s) (Luc.buf_ser s) (Luc.injected_to_server s)
                   (Luc.counter s) (Luc.injections s) (Luc.script s)
                   (Luc.itemsleft s) (Luc.timer s) x (Luc.console s) (Luc.clock s))
              = f s.
Hypothesis f_console :
  forall x s, f (Luc.mk (Luc.buf_jeu s) (Luc.buf_ser s) (Luc.injected_to_server s)
                   (Luc.counter s) (Luc.injections s) (Luc.script s)
                   (Luc.itemsleft s) (Luc.timer s) (Luc.sent s) x (Luc.clock s))
              = f s.
Hypothesis f_clock :
  forall n s, f (Luc.mk (Luc.buf_jeu s) (Luc.buf_ser s) (Luc.injected_to_server s)
                   (Luc.counter s) (Luc.injections s) (Luc.script s)
                   (Luc.itemsleft s) (Luc.timer s) (Luc.sent s) (Luc.console s) n)
              = f s.

Lemma luc_print_keeps (l : Line) : keeps f (Luc.print l).
Proof. apply keeps_modify. intros s. apply f_console. Qed.

Lemma luc_time_keeps : keeps f (Luc.time_time time).
Proof.
  unfold Luc.time_time. apply keeps_bind; [apply keeps_get | intros s0].
  apply keeps_bind; [|intros ?; apply keeps_ret].
  apply keeps_modify. intros s. apply f_clock.
Qed.

Lemma luc_send_to_server_keeps (d : Payload) : keeps f (Luc.send_to_server P d).
Proof.
  unfold Luc.send_to_server. apply keeps_bind; [|intros b].
  - destruct d as [b|m]; [apply keeps_ret|].
    apply keeps_bind; [apply keeps_get | intros s0].
    apply keeps_bind; [apply luc_print_keeps | intros ?].
    apply keeps_bind; [apply luc_print_keeps | intros ?]. apply keeps_ret.
  - apply keeps_bind; [apply keeps_modify; intros s; apply f_injected | intros ?].
    apply keeps_modify. intros s. apply f_sent.
Qed.

Lemma luc_pace_keeps : keeps f (Luc.pace P time items).
Proof.
  unfold Luc.pace. apply keeps_bind; [apply keeps_get | intros s0].
  destruct (Luc.script s0); [apply keeps_ret|].
  destruct (is_nil (Luc.itemsleft s0)).
  { apply keeps_modify. intros s. apply f_itemsleft. }
  apply keeps_bind; [apply luc_time_keeps | intros datenow].
  destruct (float_gt _ _); [|apply keeps_ret].
  apply keeps_bind; [|intros ?; apply keeps_modify; intros s; apply f_injections].
  destruct (Luc.injections s0 mod 3 =? 2).
  - apply keeps_bind; [apply luc_send_to_server_keeps | intros ?].
    apply luc_send_to_server_keeps.
  - apply keeps_bind; [|intros x].
    + unfold Luc.pop_itemsleft. apply keeps_bind; [apply keeps_get | intros s1].
      destruct (pop (Luc.itemsleft s1)) as [[x l]|]; [|apply keeps_raise].
      apply keeps_bind; [|intros ?; apply keeps_ret].
      apply keeps_modify. intros s. apply f_itemsleft.
    + apply keeps_bind; [apply luc_send_to_server_keeps | intros ?].
      apply keeps_modify. intros s. apply f_timer.
Qed.

Lemma luc_report_keeps (msg : Json) : keeps f (Luc.report W msg).
Proof.
  unfold Luc.report.
  apply keeps_bind; [apply keeps_lift | intros descs].
  apply keeps_bind; [apply keeps_lift | intros n].
  destruct (0 <? n)%nat; [|apply keeps_ret].
  apply keeps_bind; [apply luc_print_keeps | intros ?].
  apply keeps_bind; [apply keeps_lift | intros d0].
  apply keeps_bind; [apply keeps_lift | intros itemID].
  apply keeps_bind; [apply keeps_lift | intros pricesArray].
  apply keeps_bind; [apply luc_print_keeps | intros ?].
  apply keeps_bind; [apply luc_print_keeps | intros ?].
  apply keeps_bind; [apply keeps_lift | intros p0].
  apply keeps_bind; [apply keeps_lift | intros p1].
  apply keeps_bind; [apply keeps_lift | intros p2].
  destruct (requests_get W _); [apply keeps_raise | apply luc_print_keeps].
Qed.

Lemma luc_command_keeps (msg : Json) : keeps f (Luc.command P time items msg).
Proof.
  unfold Luc.command.
  apply keeps_bind; [apply keeps_lift | intros c].
  apply keeps_bind; [apply luc_print_keeps | intros ?].
  destruct (jis "stop" c).
  { apply keeps_bind; [apply keeps_modify; intros s; apply f_script | intros ?].
    apply luc_send_to_server_keeps. }
  destruct (jis "lessgo" c); [|apply keeps_ret].
  apply keeps_bind; [apply keeps_modify; intros s; apply f_script | intros ?].
  apply keeps_bind; [apply luc_time_keeps | intros t].
  apply keeps_bind; [apply keeps_modify; intros s; apply f_timer | intros ?].
  apply keeps_bind; [apply keeps_modify; intros s; apply f_itemsleft | intros ?].
  apply luc_send_to_server_keeps.
Qed.

Lemma luc_inspect_keeps (msg : Json) (o : Conn) :
  keeps f (Luc.inspect P W time items msg o).
Proof.
  unfold Luc.inspect.
  apply keeps_bind; [apply keeps_lift | intros ty].
  destruct (_ || _); [|apply keeps_ret].
  apply keeps_bind; [apply luc_print_keeps | intros ?].
  apply keeps_bind; [apply luc_print_keeps | intros ?].
  destruct (jis _ ty); [apply luc_report_keeps|].
  destruct (jis _ ty); [apply luc_command_keeps | apply keeps_ret].
Qed.

Lemma luc_handle_message_keeps (msg : Json) (o : Conn) :
  keeps f (Luc.handle_message P W time items msg o).
Proof.
  unfold Luc.handle_message.
  apply keeps_bind; [apply luc_pace_keeps | intros ?]. apply luc_inspect_keeps.
Qed.

Lemma luc_pull_keeps : keeps f (Luc.pull P origin).
Proof.
  unfold Luc.pull. apply keeps_bind; [apply keeps_get | intros s0].
  destruct (fromRaw P _ _) as [[m rest]|]; [|apply keeps_ret].
  apply keeps_bind; [|intros ?; apply keeps_ret].
  apply keeps_modify. intros s. apply f_buf.
Qed.

Lemma luc_while_keeps (fuel : nat) (msg : option Msg) :
  keeps f (Luc.while_msg P W time items fuel origin msg).
Proof.
  revert msg. induction fuel as [|fuel IH]; intros [m|]; simpl;
    try apply keeps_ret; try (now intros s).
  apply keeps_bind; [|intros ?].
  - destruct (msg_from_id P (id m)) as [ty|]; [|apply luc_print_keeps].
    unfold Luc.on_known. apply keeps_bind; [apply keeps_lift | intros r].
    destruct (negb _); [apply keeps_raise | apply luc_handle_message_keeps].
  - apply keeps_bind; [apply luc_pull_keeps | intros ?]. apply IH.
Qed.

Lemma luc_handle_keeps (fuel : nat) (d : bytes) :
  keeps f (Luc.handle P W time items fuel d origin).
Proof.
  unfold Luc.handle.
  apply keeps_bind; [apply keeps_modify; intros s; apply f_sent | intros ?].
  apply keeps_bind; [apply keeps_modify; intros s; apply f_buf | intros ?].
  apply keeps_bind; [apply luc_pull_keeps | intros ?].
  apply luc_while_keeps.
Qed.
End LucKeeps.

(** X10: [LucInjector] never assigns [self.counter]: it is 0 after
    [__init__], and handling a chunk, whatever its frames and whatever the
    automation does, leaves it as it was.  So every message that
    [LucInjector] injects carries the same counter. *)
Theorem luc_counter_never_moves
  (P : Protocol) (W : World) (time : nat -> float) (items : list Z)
  (fuel : nat) (d : bytes) (origin : Conn) (s : Luc.State) :
  Luc.counter (Luc.init time items) = 0
  /\ match Luc.handle P W time items fuel d origin s with
     | Ret _ s' | Raise _ s' => Luc.counter s' = Luc.counter s
     | OutOfFuel => True
     end.
Proof.
  split; [reflexivity|].
  apply (@luc_handle_keeps P W time items origin _ Luc.counter);
    intros; try reflexivity; now destruct origin.
Qed.

(** what the server and the automation can see of an injection: the bytes
    sent, the count of injections, the script *)
Definition outward (s : Luc.State) : list (Conn * bytes) * Z * Script :=
  (Luc.sent s, Luc.injected_to_server s, Luc.script s).

(** X11: while the script is off, a message that is not a
    [ChatClientMultiMessage] makes [handle_message] send nothing and inject
    nothing, and the script stays off, whether the call returns or raises
    (a price report may raise): the automation acts only once it has been
    started by the chat command. *)
Theorem idle_automation_injects_nothing
  (P : Protocol) (W : World) (time : nat -> float) (items : list Z)
  (msg : Json) (origin : Conn) (s : Luc.State) :
  Luc.script s = off ->
  (forall ty, jget "__type__" msg = inr ty ->
              jis "ChatClientMultiMessage" ty = false) ->
  match Luc.handle_message P W time items msg origin s with
  | Ret _ s' | Raise _ s' =>
      Luc.sent s' = Luc.sent s
      /\ Luc.injected_to_server s' = Luc.injected_to_server s
      /\ Luc.script s' = off
  | OutOfFuel => True
  end.
Proof.
  intros Hoff Hty.
  rewrite (@handle_message_after_pace P W time items msg origin s s
             (@pace_off P time items s Hoff)).
  assert (K : keeps outward (Luc.inspect P W time items msg origin)).
  { intros s0. unfold Luc.inspect.
    destruct (jget "__type__" msg) as [e|ty] eqn:E; [reflexivity|].
    specialize (Hty ty eq_refl). unfold lift. unfold bind at 1. unfold ret at 1.
    cbv iota beta. rewrite Hty. revert s0. refine (_ : keeps outward _).
    destruct (_ || _); [|apply keeps_ret].
    apply keeps_bind; [apply luc_print_keeps; reflexivity | intros ?].
    apply keeps_bind; [apply luc_print_keeps; reflexivity | intros ?].
    destruct (jis "ExchangeTypesItemsExchangerDescriptionForUserMessage" ty);
      [apply luc_report_keeps; reflexivity | apply keeps_ret]. }
  specialize (K s). unfold outward in K.
  destruct (Luc.inspect P W time items msg origin s);
    try inversion K; rewrite ?Hoff in *; auto.
Qed.

Lemma idle_automation_injects_nothing_witness :
  exists s',
    Luc.handle_message Sample.protocol Sample.offline seconds [7; 8; 9]
      price_message coSer worklist_789 = Raise (SinkError "requests.get") s'
    /\ Luc.sent s' = []
    /\ Luc.injected_to_server s' = 0
    /\ Luc.script s' = off.
Proof.
  pose proof (@idle_automation_injects_nothing Sample.protocol Sample.offline
                seconds [7; 8; 9] price_message coSer worklist_789 eq_refl) as H.
  assert (Hty : forall ty, jget "__type__" price_message = inr ty ->
                           jis "ChatClientMultiMessage" ty = false)
    by (intros ty E; vm_compute in E; inversion E; reflexivity).
  specialize (H Hty).
  destruct (Luc.handle_message Sample.protocol Sample.offline seconds [7; 8; 9]
              price_message coSer worklist_789) as [[] s'|e s'|] eqn:E;
    try (vm_compute in E; discriminate E).
  exists s'. split; [|exact H].
  vm_compute in E. inversion E. reflexivity.
Defined.

(** X12: the paced injection at the head of [handle_message] never raises:
    [self.itemsleft.pop()] is reached only when the worklist is not empty.
    It leaves [self.script] and [self.counter] as they are, and does nothing
    at all while the script is off. *)
Theorem paced_injection_never_fails
  (P : Protocol) (time : nat -> float) (items : list Z) (s : Luc.State) :
  exists s1,
    Luc.pace P time items s = Ret tt s1
    /\ Luc.script s1 = Luc.script s
    /\ Luc.counter s1 = Luc.counter s
    /\ (Luc.script s = off -> s1 = s).
Proof.
  destruct (pace_returns P time items s) as (s1 & Hrun & Hs & Hc).
  exists s1. repeat split; auto.
  intros Hoff. rewrite (@pace_off P time items s Hoff) in Hrun. now inversion Hrun.
Qed.

(** X13: the price report reads three prices and the item id before it
    calls the reporting server.  A description with fewer than three prices
    makes [handle_message] raise [IndexError] without any request being
    made (whatever the server would answer); an empty list of descriptions
    is echoed and otherwise ignored. *)
Theorem price_report_edge_cases
  (P : Protocol) (W : World) (time : nat -> float) (items : list Z)
  (msg : Json) (origin : Conn) (s s1 : Luc.State) :
  jget "__type__" msg
  = inr (JStr "ExchangeTypesItemsExchangerDescriptionForUserMessage") ->
  Luc.pace P time items s = Ret tt s1 ->
  (forall d0 ds g ps,
      jget "itemTypeDescriptions" msg = inr (JList (d0 :: ds)) ->
      jget "objectGID" d0 = inr g ->
      jget "prices" d0 = inr (JList ps) ->
      (List.length ps < 3)%nat ->
      Luc.handle_message P W time items msg origin s
      = Raise IndexError
          (logged [LStr (direction W origin); LJson msg; got_one; LJson g;
                   LJson (JList ps)] s1))
  /\ (jget "itemTypeDescriptions" msg = inr (JList []) ->
      Luc.handle_message P W time items msg origin s
      = Ret tt (logged [LStr (direction W origin); LJson msg] s1)).
Proof.
  intros Hty Hpace.
  rewrite (@handle_message_after_pace P W time items msg origin s s1 Hpace).
  assert (Hin : Luc.inspect P W time items msg origin s1
                = (Luc.print (LStr (direction W origin)) ;;
                   Luc.print (LJson msg) ;;
                   Luc.report W msg) s1).
  { unfold Luc.inspect. rewrite Hty. run. rewrite prices_not_masked.
    cbn [negb orb].
    replace (jis "ExchangeTypesItemsExchangerDescriptionForUserMessage"
               (JStr "ExchangeTypesItemsExchangerDescriptionForUserMessage"))
      with true by reflexivity.
    reflexivity. }
  rewrite Hin. split.
  - intros d0 ds g ps Hdescs Hg Hprices Hlen.
    unfold Luc.report. rewrite Hdescs. destruct s1. luc_run.
    cbn [jlen jidx nth_error List.length Nat.ltb Nat.leb]. luc_run.
    rewrite Hg, Hprices. luc_run. unfold logged, got_one. luc_run.
    destruct ps as [|p0 [|p1 [|p2 ps]]]; cbn [jidx nth_error]; luc_run;
      try (now rewrite <- !app_assoc).
    simpl in Hlen. lia.
  - intros Hdescs. unfold Luc.report. rewrite Hdescs. destruct s1. luc_run.
    cbn [jlen List.length Nat.ltb Nat.leb]. unfold logged. luc_run.
    now rewrite <- !app_assoc.
Qed.

(** a price description with two prices only *)
Definition short_price_message : Json :=
  JDict [("__type__", JStr "ExchangeTypesItemsExchangerDescriptionForUserMessage");
         ("itemTypeDescriptions",
          JList [JDict [("objectGID", JNum 9);
                        ("prices", JList [JNum 10; JNum 95])]])].

Lemma price_report_edge_cases_witness :
  Luc.handle_message Sample.protocol Sample.world seconds [7; 8; 9]
    short_price_message coSer worklist_789
  = Raise IndexError
      (logged [LStr "Server->Client"; LJson short_price_message; got_one;
               LJson (JNum 9); LJson (JList [JNum 10; JNum 95])] worklist_789).
Proof.
  destruct (@price_report_edge_cases Sample.protocol Sample.world seconds [7; 8; 9]
              short_price_message coSer worklist_789 worklist_789 eq_refl eq_refl)
    as (Hshort & _).
  apply (Hshort (JDict [("objectGID", JNum 9);
                        ("prices", JList [JNum 10; JNum 95])])
                [] (JNum 9) [JNum 10; JNum 95]); try reflexivity.
  simpl. lia.
Defined.

Lemma masked_is_masked (t : string) (ty : Json) :
  ty = JStr t -> In t Luc.masked ->
  existsb (fun t' => jis t' ty) Luc.masked = true.
Proof.
  intros -> Hin. apply existsb_exists. exists t. split; [exact Hin|].
  simpl. apply String.eqb_refl.
Qed.

(** X14: a message of one of the nine masked types that does not come from
    the local client is neither echoed nor looked at: [handle_message] does
    the paced injection and nothing else. *)
Theorem masked_server_message_is_ignored
  (P : Protocol) (W : World) (time : nat -> float) (items : list Z)
  (msg : Json) (t : string) (origin : Conn) (s s1 : Luc.State) :
  jget "__type__" msg = inr (JStr t) ->
  In t Luc.masked ->
  from_client W origin = false ->
  Luc.pace P time items s = Ret tt s1 ->
  Luc.handle_message P W time items msg origin s = Ret tt s1.
Proof.
  intros Hty Hin Hfrom Hpace.
  rewrite (@handle_message_after_pace P W time items msg origin s s1 Hpace).
  unfold Luc.inspect. rewrite Hty. run.
  rewrite (@masked_is_masked t (JStr t) eq_refl Hin).
  unfold direction. rewrite Hfrom. reflexivity.
Qed.

Lemma masked_server_message_is_ignored_witness :
  Luc.handle_message Sample.protocol Sample.world seconds [7; 8; 9]
    (JDict [("__type__", JStr "ChatServerMessage"); ("content", JStr "lessgo")])
    coSer worklist_789
  = Ret tt worklist_789.
Proof.
  apply (@masked_server_message_is_ignored Sample.protocol Sample.world seconds
           [7; 8; 9] _ "ChatServerMessage" coSer worklist_789 worklist_789);
    try reflexivity.
  simpl. tauto.
Defined.

(** ** The worklist while the script is on *)

(** [m] maintains the invariant [I], whether it returns or raises *)
Definition maintains {S A} (I : S -> Prop) (m : M S A) : Prop :=
  forall s, I s ->
            match m s with
            | Ret _ s' | Raise _ s' => I s'
            | OutOfFuel => True
            end.

Lemma maintains_bind {S A B} (I : S -> Prop) (m : M S A) (k : A -> M S B) :
  maintains I m -> (forall a, maintains I (k a)) -> maintains I (bind m k).
Proof.
  intros Hm Hk s Hs. unfold bind. specialize (Hm s Hs).
  destruct (m s) as [a s1|e s1|]; auto. apply Hk, Hm.
Qed.

Lemma maintains_keeps {S A X} (f : S -> X) (I : X -> Prop) (m : M S A) :
  keeps f m -> maintains (fun s => I (f s)) m.
Proof.
  intros H s Hs. specialize (H s). destruct (m s); auto; now rewrite H.
Qed.

(** the part of the state that the worklist invariant is about *)
Definition automation (s : Luc.State) : Script * list (option Z) :=
  (Luc.script s, Luc.itemsleft s).

(** while the script is on, the worklist is an initial segment of the
    configured items *)
Definition on_track_of (items : list Z) (a : Script * list (option Z)) : Prop :=
  fst a = on -> exists k, snd a = firstn k (map Some items).

Definition on_track (items : list Z) (s : Luc.State) : Prop :=
  on_track_of items (automation s).

Lemma initial_segment_pop {A} (full l : list A) (x : A) (k : nat) :
  l ++ [x] = firstn k full -> exists k', l = firstn k' full.
Proof.
  intros H. exists (Nat.min (List.length l) k).
  rewrite <- firstn_firstn, <- H, firstn_app, Nat.sub_diag, firstn_all.
  simpl. now rewrite app_nil_r.
Qed.

Section Worklist.
Variable P : Protocol.
Variable W : World.
Variable time : nat -> float.
Variable items : list Z.

Lemma refilled_on_track (s : Luc.State) :
  on_track items (Luc.set_itemsleft (Luc.refill items) s).
Proof.
  intros _. exists (List.length (map Some items)).
  simpl. now rewrite refill_full, firstn_all.
Qed.

Lemma automation_keeps_on_track {A} (m : M Luc.State A) :
  keeps automation m -> maintains (on_track items) m.
Proof. apply (@maintains_keeps _ _ _ automation (on_track_of items) m). Qed.

Lemma pace_on_track : maintains (on_track items) (Luc.pace P time items).
Proof.
  intros s Hs. destruct (Luc.script s) eqn:Hscript.
  - now rewrite pace_off.
  - destruct (Luc.itemsleft s) as [|a l0] eqn:E.
    + rewrite pace_refill by assumption. apply refilled_on_track.
    + assert (Hne : Luc.itemsleft s <> []) by congruence.
      destruct (float_gt (time (Luc.clock s) - Luc.timer s) 0.8) eqn:Hq.
      * destruct (Z.eq_dec (Luc.injections s mod 3) 2) as [Hm|Hm].
        -- rewrite pace_refresh by assumption. exact Hs.
        -- destruct (exists_last Hne) as (l & x & El).
           rewrite (@pace_query P time items s l x Hscript El Hq Hm).
           intros _. destruct (Hs Hscript) as (k & Hk). simpl in Hk.
           rewrite El in Hk. simpl. exact (initial_segment_pop _ _ _ _ Hk).
      * rewrite pace_wait by assumption. exact Hs.
Qed.

Lemma command_on_track (msg : Json) :
  maintains (on_track items) (Luc.command P time items msg).
Proof.
  intros s Hs. unfold Luc.command.
  destruct (jget "content" msg) as [e|c]; [exact Hs|].
  unfold lift. unfold bind at 1. unfold ret at 1. cbv iota beta.
  unfold bind at 1. unfold Luc.print at 1. unfold modify at 1. cbv iota beta.
  destruct (jis "stop" c).
  - unfold bind, modify, Luc.send_message. rewrite luc_send_to_server_msg.
    intros H. discriminate H.
  - destruct (jis "lessgo" c).
    + unfold Luc.time_time, Luc.send_message. run.
      rewrite luc_send_to_server_msg.
      intros _. exists (List.length (map Some items)).
      simpl. now rewrite refill_full, firstn_all.
    + exact Hs.
Qed.

Lemma inspect_on_track (msg : Json) (origin : Conn) :
  maintains (on_track items) (Luc.inspect P W time items msg origin).
Proof.
  unfold Luc.inspect.
  apply maintains_bind;
    [apply automation_keeps_on_track, keeps_lift | intros ty].
  destruct (_ || _); [|apply automation_keeps_on_track, keeps_ret].
  apply maintains_bind;
    [apply automation_keeps_on_track, luc_print_keeps; reflexivity | intros ?].
  apply maintains_bind;
    [apply automation_keeps_on_track, luc_print_keeps; reflexivity | intros ?].
  destruct (jis _ ty);
    [apply automation_keeps_on_track, luc_report_keeps; reflexivity|].
  destruct (jis _ ty);
    [apply command_on_track | apply automation_keeps_on_track, keeps_ret].
Qed.

Lemma handle_message_on_track (msg : Json) (origin : Conn) :
  maintains (on_track items) (Luc.handle_message P W time items msg origin).
Proof.
  unfold Luc.handle_message.
  apply maintains_bind; [apply pace_on_track | intros ?]. apply inspect_on_track.
Qed.

Lemma luc_pull_keeps_automation (origin : Conn) :
  keeps automation (Luc.pull P origin).
Proof. apply luc_pull_keeps. intros b s. now destruct origin. Qed.

Lemma while_on_track (fuel : nat) (origin : Conn) (msg : option Msg) :
  maintains (on_track items) (Luc.while_msg P W time items fuel origin msg).
Proof.
  revert msg. induction fuel as [|fuel IH]; intros [m|]; simpl;
    try (now intros s Hs).
  apply maintains_bind; [|intros ?].
  - destruct (msg_from_id P (id m)) as [ty|];
      [|apply automation_keeps_on_track, luc_print_keeps; reflexivity].
    unfold Luc.on_known.
    apply maintains_bind;
      [apply automation_keeps_on_track, keeps_lift | intros r].
    destruct (negb _);
      [apply automation_keeps_on_track, keeps_raise | apply handle_message_on_track].
  - apply maintains_bind;
      [apply automation_keeps_on_track, luc_pull_keeps_automation | intros ?].
    apply IH.
Qed.

Lemma handle_on_track (fuel : nat) (d : bytes) (origin : Conn) :
  maintains (on_track items) (Luc.handle P W time items fuel d origin).
Proof.
  unfold Luc.handle.
  apply maintains_bind; [|intros ?].
  { apply automation_keeps_on_track, keeps_modify. reflexivity. }
  apply maintains_bind; [|intros ?].
  { apply automation_keeps_on_track, keeps_modify. intros s. now destruct origin. }
  apply maintains_bind;
    [apply automation_keeps_on_track, luc_pull_keeps_automation | intros ?].
  apply while_on_track.
Qed.
End Worklist.

(** X15: while the script is on, the worklist is always an initial segment
    of the configured items: the invariant holds after [__init__] and is
    kept by [handle] on every chunk, whether it returns or raises.  So the
    items are queried from the last configured one to the first, and the
    [None] entries that [__init__] puts in the worklist are never
    queried. *)
Theorem worklist_is_initial_segment
  (P : Protocol) (W : World) (time : nat -> float) (items : list Z)
  (fuel : nat) (d : bytes) (origin : Conn) (s : Luc.State) :
  on_track items s ->
  on_track items (Luc.init time items)
  /\ match Luc.handle P W time items fuel d origin s with
     | Ret _ s' | Raise _ s' => on_track items s'
     | OutOfFuel => True
     end.
Proof.
  intros Hs. split; [intros H; discriminate H|].
  exact (@handle_on_track P W time items fuel d origin s Hs).
Qed.

Lemma worklist_is_initial_segment_witness :
  exists s',
    Luc.handle Sample.protocol Sample.world seconds [7; 8; 9] 1 Sample.pong coSer
      (Luc.set_script on (Luc.set_itemsleft [Some 7; Some 8; Some 9] worklist_789))
    = Ret tt s'
    /\ Luc.itemsleft s' = [Some 7; Some 8]
    /\ on_track [7; 8; 9] s'.
Proof.
  destruct (@worklist_is_initial_segment Sample.protocol Sample.world seconds
              [7; 8; 9] 1 Sample.pong coSer
              (Luc.set_script on
                 (Luc.set_itemsleft [Some 7; Some 8; Some 9] worklist_789)))
    as (_ & H).
  - intros _. exists 3%nat. reflexivity.
  - destruct (Luc.handle Sample.protocol Sample.world seconds [7; 8; 9] 1
                Sample.pong coSer
                (Luc.set_script on
                   (Luc.set_itemsleft [Some 7; Some 8; Some 9] worklist_789)))
      as [[] s'|e s'|] eqn:E; try (vm_compute in E; discriminate E).
    exists s'. split; [reflexivity|]. split; [|exact H].
    vm_compute in E. inversion E. reflexivity.
Defined.

(** ** Termination of [LucInjector.handle] *)

(** [m] returns or raises *)
Definition ends {S A} (m : M S A) : Prop := forall s, m s <> OutOfFuel.

Lemma ends_ret {S A} (a : A) : ends (@ret S A a).
Proof. intros s. discriminate. Qed.

Lemma ends_raise {S A} (e : Exn) : ends (@raise S A e).
Proof. intros s. discriminate. Qed.

Lemma ends_get {S} : ends (@get S).
Proof. intros s. discriminate. Qed.

Lemma ends_modify {S} (g : S -> S) : ends (modify g).
Proof. intros s. discriminate. Qed.

Lemma ends_lift {S A} (x : Exn + A) : ends (@lift S A x).
Proof. destruct x; intros s; discriminate. Qed.

Lemma ends_bind {S A B} (m : M S A) (k : A -> M S B) :
  ends m -> (forall a, ends (k a)) -> ends (bind m k).
Proof.
  intros Hm Hk s. unfold bind. specialize (Hm s).
  destruct (m s) as [a s1|e s1|]; [apply Hk | discriminate | contradiction].
Qed.

Create HintDb ends.
#[local] Hint Resolve ends_ret ends_raise ends_get ends_modify ends_lift : ends.

Ltac ends_step :=
  first [ solve [auto with ends] | apply ends_bind; [| intros ?] ].

Section LucTermination.
Variable P : Protocol.
Variable W : World.
Variable time : nat -> float.
Variable items : list Z.
Variable origin : Conn.

Hypothesis fromRaw_consumes :
  forall fc b m rest,
    fromRaw P fc b = Some (m, rest) -> (List.length rest < List.length b)%nat.

Lemma luc_send_to_server_ends (d : Payload) : ends (Luc.send_to_server P d).
Proof.
  unfold Luc.send_to_server, Luc.print, Luc.sendall.
  apply ends_bind; [|intros b; repeat ends_step].
  destruct d; repeat ends_step.
Qed.

Lemma luc_pace_ends : ends (Luc.pace P time items).
Proof.
  intros s. destruct (pace_returns P time items s) as (s1 & H & _).
  rewrite H. discriminate.
Qed.

Lemma luc_report_ends (msg : Json) : ends (Luc.report W msg).
Proof.
  unfold Luc.report, Luc.print. ends_step; [ends_step|]. ends_step; [ends_step|].
  destruct (0 <? _)%nat; [|ends_step].
  repeat (apply ends_bind; [solve [auto with ends] | intros ?]).
  destruct (requests_get W _); ends_step.
Qed.

Lemma luc_command_ends (msg : Json) : ends (Luc.command P time items msg).
Proof.
  unfold Luc.command, Luc.print, Luc.time_time, Luc.send_message.
  ends_step; [ends_step|]. ends_step; [ends_step|].
  destruct (jis "stop" _).
  { ends_step; [ends_step | apply luc_send_to_server_ends]. }
  destruct (jis "lessgo" _); [|ends_step].
  ends_step; [ends_step|].
  ends_step; [repeat ends_step|].
  ends_step; [ends_step|]. ends_step; [ends_step|].
  apply luc_send_to_server_ends.
Qed.

Lemma luc_handle_message_ends (msg : Json) (o : Conn) :
  ends (Luc.handle_message P W time items msg o).
Proof.
  unfold Luc.handle_message. apply ends_bind; [apply luc_pace_ends | intros ?].
  unfold Luc.inspect, Luc.print. ends_step; [ends_step|].
  destruct (_ || _); [|ends_step].
  ends_step; [ends_step|]. ends_step; [ends_step|].
  destruct (jis _ _); [apply luc_report_ends|].
  destruct (jis _ _); [apply luc_command_ends | ends_step].
Qed.

Lemma luc_handle_message_keeps_buf (msg : Json) (o : Conn) :
  keeps (Luc.buf origin) (Luc.handle_message P W time items msg o).
Proof.
  apply luc_handle_message_keeps; intros; now destruct origin.
Qed.

Lemma luc_body_ends (m : Msg) (s : Luc.State) :
  match (match msg_from_id P (id m) with
         | Some ty => Luc.on_known P W time items origin m ty
         | None => Luc.print (LSorry (id m))
         end) s with
  | Ret _ s' => Luc.buf origin s' = Luc.buf origin s
  | Raise _ _ => True
  | OutOfFuel => False
  end.
Proof.
  destruct (msg_from_id P (id m)) as [ty|].
  - unfold Luc.on_known. destruct (read P ty (data m)) as [e|[j pos]]; run; auto.
    cbn [fst snd]. destruct (negb _); auto.
    pose proof (@luc_handle_message_ends j origin s) as He.
    pose proof (@luc_handle_message_keeps_buf j origin s) as Hk.
    destruct (Luc.handle_message P W time items j origin s); auto.
  - unfold Luc.print. run. now destruct origin.
Qed.

Lemma luc_while_ends (fuel : nat) :
  forall (msg : option Msg) (s : Luc.State),
    msg = None \/ (List.length (Luc.buf origin s) < fuel)%nat ->
    Luc.while_msg P W time items fuel origin msg s <> OutOfFuel.
Proof.
  induction fuel as [|fuel IH]; intros [m|] s [H|H]; try discriminate;
    try (simpl in H; lia); try (simpl; discriminate).
  cbn [Luc.while_msg]. unfold bind at 1.
  pose proof (luc_body_ends m s) as Hb.
  remember (match msg_from_id P (id m) with
            | Some ty => Luc.on_known P W time items origin m ty
            | None => Luc.print (LSorry (id m))
            end s) as body eqn:Ebody.
  clear Ebody. destruct body as [[] s1|e s1|]; [|discriminate|contradiction].
  unfold Luc.pull. run.
  destruct (fromRaw P (Conn_eqb origin coJeu) (Luc.buf origin s1))
    as [[m' rest]|] eqn:E.
  - apply IH. right. apply fromRaw_consumes in E.
    replace (Luc.buf origin (Luc.set_buf origin rest s1)) with rest
      by now destruct origin.
    rewrite Hb in E. lia.
  - apply IH. now left.
Qed.

Lemma luc_handle_ends (fuel : nat) (d : bytes) (s : Luc.State) :
  (List.length (Luc.buf origin s) + List.length d <= fuel)%nat ->
  Luc.handle P W time items fuel d origin s <> OutOfFuel.
Proof.
  intros Hfuel. unfold Luc.handle, Luc.sendall, Luc.pull. run.
  match goal with
  | |- context [fromRaw P ?fc ?b] =>
      destruct (fromRaw P fc b) as [[m rest]|] eqn:E
  end.
  - apply luc_while_ends. right. apply fromRaw_consumes in E.
    replace (Luc.buf origin (Luc.set_buf origin rest _)) with rest
      by now destruct origin.
    revert E. destruct s, origin; cbn; rewrite length_app; cbn in Hfuel; lia.
  - apply luc_while_ends. now left.
Qed.
End LucTermination.

(** X16: [LucInjector.handle] leaves its [while] loop on every chunk,
    whatever the automation does in [handle_message]: provided that
    extraction consumes bytes from the front of the buffer, as many
    iterations as there are bytes at hand are enough for [handle] to return
    or raise.  (It is [InjectorBridgeHandler.handle] alone that can spin.) *)
Theorem luc_handle_terminates
  (P : Protocol) (W : World) (time : nat -> float) (items : list Z)
  (origin : Conn) (fuel : nat) (d : bytes) (s : Luc.State) :
  (forall fc b m rest,
      fromRaw P fc b = Some (m, rest) -> (List.length rest < List.length b)%nat) ->
  (List.length (Luc.buf origin s) + List.length d <= fuel)%nat ->
  Luc.handle P W time items fuel d origin s <> OutOfFuel.
Proof. intros H1 H2. now apply luc_handle_ends. Qed.

Lemma luc_handle_terminates_witness :
  (List.length (Luc.buf coSer worklist_789) + List.length mixed_chunk <= 11)%nat
  /\ Luc.handle Sample.protocol Sample.world seconds [7; 8; 9] 11 mixed_chunk
       coSer worklist_789 <> OutOfFuel.
Proof.
  split; [vm_compute; repeat constructor|].
  apply (@luc_handle_terminates Sample.protocol Sample.world seconds [7; 8; 9]
           coSer 11 mixed_chunk worklist_789).
  - intros fc b m rest. apply sample_fromRaw_consumes.
  - vm_compute. repeat constructor.
Defined.

(** X17: as long as the relay loop has not left its body (it is blocked in
    [select] because the script is used up, or the policy does not return),
    no socket has been closed: [close] is only called on the way out. *)
Theorem running_loop_closes_nothing
  (S : Type) (handle : bytes -> Conn -> M S unit)
  (script : list Select) (s : S) (c : Conn) :
  match snd (loop handle script s) with
  | Stop _ _ => closes c (fst (loop handle script s)) = 1%nat
  | Continue _ | Hang => closes c (fst (loop handle script s)) = 0%nat
  end.
Proof.
  unfold loop. pose proof (while_active_log handle script s) as H.
  destruct (while_active handle script s) as [l [s'|why s'|]];
    cbn [fst snd] in *.
  - exact (@body_log_closes _ c l _ H).
  - rewrite closes_app, (@body_log_closes _ c l _ H). now destruct c.
  - exact (@body_log_closes _ c l _ H).
Qed.

(** ** Injections in both directions *)

Inductive Injection : Type :=
| ToClient (p : Payload)
| ToServer (p : Payload).

Definition inject (P : Protocol) (i : Injection) : M Injector.State unit :=
  match i with
  | ToClient p => Injector.send_to_client P p
  | ToServer p => Injector.send_to_server P p
  end.

Fixpoint inject_seq (P : Protocol) (l : list Injection) : M Injector.State unit :=
  match l with
  | [] => ret tt
  | i :: l' => inject P i ;; inject_seq P l'
  end.

(** what an injection puts on the wire when [self.counter] is [c] *)
Definition wire (P : Protocol) (c : Z) (i : Injection) : Conn * bytes :=
  match i with
  | ToClient (Raw b) => (coJeu, b)
  | ToClient (Structured m) => (coJeu, msg_bytes P m)
  | ToServer (Raw b) => (coSer, b)
  | ToServer (Structured m) => (coSer, msg_bytes P (set_count (c + 1) m))
  end.

Definition toward_server (l : list Injection) : nat :=
  List.length (filter (fun i => match i with ToServer _ => true | _ => false end) l).

Definition toward_client (l : list Injection) : nat :=
  List.length (filter (fun i => match i with ToClient _ => true | _ => false end) l).

Lemma inject_seq_counts (P : Protocol) (l : list Injection) (s : Injector.State) :
  exists s',
    inject_seq P l s = Ret tt s'
    /\ Injector.sent s' = Injector.sent s ++ map (wire P (Injector.counter s)) l
    /\ Injector.injected_to_server s'
       = Injector.injected_to_server s + Z.of_nat (toward_server l)
    /\ Injector.injected_to_client s'
       = Injector.injected_to_client s + Z.of_nat (toward_client l)
    /\ Injector.counter s' = Injector.counter s
    /\ Injector.db s' = Injector.db s.
Proof.
  revert s. induction l as [|i l IH]; intros s.
  - exists s. simpl. rewrite app_nil_r. repeat split; auto; lia.
  - cbn [inject_seq]. unfold bind.
    assert (Hstep : exists s1,
               inject P i s = Ret tt s1
               /\ Injector.sent s1 = Injector.sent s ++ [wire P (Injector.counter s) i]
               /\ Injector.injected_to_server s1
                  = Injector.injected_to_server s + Z.of_nat (toward_server [i])
               /\ Injector.injected_to_client s1
                  = Injector.injected_to_client s + Z.of_nat (toward_client [i])
               /\ Injector.counter s1 = Injector.counter s
               /\ Injector.db s1 = Injector.db s).
    { unfold inject, Injector.send_to_client, Injector.send_to_server,
        Injector.sendall.
      destruct i as [[b|m]|[b|m]]; run; cbv zeta beta; eexists;
        (split; [reflexivity|]); simpl; repeat split; auto; lia. }
    destruct Hstep as (s1 & Hrun1 & Hsent1 & Hs1 & Hc1 & Hcnt1 & Hdb1).
    rewrite Hrun1. destruct (IH s1) as (s' & Hrun & Hsent & Hs & Hc & Hcnt & Hdb).
    exists s'. split; [exact Hrun|].
    rewrite Hsent, Hs, Hc, Hcnt, Hdb, Hsent1, Hs1, Hc1, Hcnt1, Hdb1, <- app_assoc.
    repeat split; auto.
    + unfold toward_server in *. destruct i; simpl in *; lia.
    + unfold toward_client in *. destruct i; simpl in *; lia.
Qed.

(** X18: every call of [send_to_client] or [send_to_server] is counted,
    with raw bytes as with a [Msg], and none moves [self.counter]: a [Msg]
    for the client and raw bytes go out as they are, a [Msg] for the server
    goes out numbered [self.counter + 1].  A client frame with counter [c]
    decoded after [k] injections toward the server and [j] toward the client
    is then recorded with counter [c + k - j] (on top of the counts before). *)
Theorem injections_are_counted_by_direction
  (P : Protocol) (l : list Injection) (s : Injector.State) :
  exists s',
    inject_seq P l s = Ret tt s'
    /\ Injector.sent s' = Injector.sent s ++ map (wire P (Injector.counter s)) l
    /\ Injector.injected_to_server s'
       = Injector.injected_to_server s + Z.of_nat (toward_server l)
    /\ Injector.injected_to_client s'
       = Injector.injected_to_client s + Z.of_nat (toward_client l)
    /\ Injector.counter s' = Injector.counter s
    /\ forall (W : World) (db_size : nat) (m : Msg) (ty : MsgType P) (j : Json)
              (pos : nat) (c : Z),
         read P ty (data m) = inr (j, pos) ->
         remaining (data m) pos = 0%nat \/ remaining (data m) pos = 48%nat ->
         count m = Some c ->
         exists s'',
           Injector.on_known P W db_size None coJeu m ty s' = Ret tt s''
           /\ Injector.counter s''
              = c + (Injector.injected_to_server s + Z.of_nat (toward_server l)
                     - (Injector.injected_to_client s + Z.of_nat (toward_client l))).
Proof.
  destruct (inject_seq_counts P l s) as (s' & Hrun & Hsent & Hs & Hc & Hcnt & Hdb).
  exists s'. repeat split; auto.
  intros W db_size m ty j pos c Hread Hrem Hcount.
  rewrite (@injector_on_known_from_client P W db_size None m ty j pos c s'
             Hread Hrem Hcount I).
  eexists. split; [reflexivity|]. simpl. now rewrite Hs, Hc.
Qed.

(** ** What [LucInjector] sends *)

(** [l] is [base] followed by bytes for the server only *)
Definition extended_toward_server (base l : list (Conn * bytes)) : Prop :=
  exists tail, l = base ++ tail /\ Forall (fun x => fst x = coSer) tail.

Lemma extended_refl (base : list (Conn * bytes)) : extended_toward_server base base.
Proof. exists []. now rewrite app_nil_r. Qed.

Lemma extended_snoc (base l : list (Conn * bytes)) (b : bytes) :
  extended_toward_server base l -> extended_toward_server base (l ++ [(coSer, b)]).
Proof.
  intros (tail & -> & H). exists (tail ++ [(coSer, b)]).
  rewrite app_assoc. split; [reflexivity|].
  apply Forall_app. split; [exact H | now constructor].
Qed.

Section LucSends.
Variable P : Protocol.
Variable W : World.
Variable time : nat -> float.
Variable items : list Z.
Variable base : list (Conn * bytes).

Definition only_injects (s : Luc.State) : Prop :=
  extended_toward_server base (Luc.sent s).

Lemma sent_keeps_only_injects {A} (m : M Luc.State A) :
  keeps Luc.sent m -> maintains only_injects m.
Proof. apply (@maintains_keeps _ _ _ Luc.sent (extended_toward_server base) m). Qed.

Lemma send_to_server_only_injects (d : Payload) :
  maintains only_injects (Luc.send_to_server P d).
Proof.
  intros s Hs. destruct d as [b|m].
  - unfold Luc.send_to_server, Luc.sendall. run. now apply extended_snoc.
  - rewrite luc_send_to_server_msg. now apply extended_snoc.
Qed.

Lemma pace_only_injects : maintains only_injects (Luc.pace P time items).
Proof.
  intros s Hs. destruct (Luc.script s) eqn:Hscript.
  - now rewrite pace_off.
  - destruct (Luc.itemsleft s) as [|a l0] eqn:E.
    + rewrite pace_refill by assumption. exact Hs.
    + assert (Hne : Luc.itemsleft s <> []) by congruence.
      destruct (float_gt (time (Luc.clock s) - Luc.timer s) 0.8) eqn:Hq.
      * destruct (Z.eq_dec (Luc.injections s mod 3) 2) as [Hm|Hm].
        -- rewrite pace_refresh by assumption.
           unfold only_injects. simpl. now apply extended_snoc, extended_snoc.
        -- destruct (exists_last Hne) as (l & x & El).
           rewrite (@pace_query P time items s l x Hscript El Hq Hm).
           unfold only_injects. simpl. now apply extended_snoc.
      * rewrite pace_wait by assumption. exact Hs.
Qed.

Lemma command_only_injects (msg : Json) :
  maintains only_injects (Luc.command P time items msg).
Proof.
  unfold Luc.command.
  apply maintains_bind; [apply sent_keeps_only_injects, keeps_lift | intros c].
  apply maintains_bind;
    [apply sent_keeps_only_injects, luc_print_keeps; reflexivity | intros ?].
  destruct (jis "stop" c).
  { apply maintains_bind;
      [apply sent_keeps_only_injects, keeps_modify; reflexivity | intros ?].
    apply send_to_server_only_injects. }
  destruct (jis "lessgo" c); [|apply sent_keeps_only_injects, keeps_ret].
  apply maintains_bind;
    [apply sent_keeps_only_injects, keeps_modify; reflexivity | intros ?].
  apply maintains_bind;
    [apply sent_keeps_only_injects, luc_time_keeps; reflexivity | intros t].
  apply maintains_bind;
    [apply sent_keeps_only_injects, keeps_modify; reflexivity | intros ?].
  apply maintains_bind;
    [apply sent_keeps_only_injects, keeps_modify; reflexivity | intros ?].
  apply send_to_server_only_injects.
Qed.

Lemma handle_message_only_injects (msg : Json) (origin : Conn) :
  maintains only_injects (Luc.handle_message P W time items msg origin).
Proof.
  unfold Luc.handle_message.
  apply maintains_bind; [apply pace_only_injects | intros ?].
  unfold Luc.inspect.
  apply maintains_bind; [apply sent_keeps_only_injects, keeps_lift | intros ty].
  destruct (_ || _); [|apply sent_keeps_only_injects, keeps_ret].
  apply maintains_bind;
    [apply sent_keeps_only_injects, luc_print_keeps; reflexivity | intros ?].
  apply maintains_bind;
    [apply sent_keeps_only_injects, luc_print_keeps; reflexivity | intros ?].
  destruct (jis _ ty);
    [apply sent_keeps_only_injects, luc_report_keeps; reflexivity|].
  destruct (jis _ ty);
    [apply command_only_injects | apply sent_keeps_only_injects, keeps_ret].
Qed.

Lemma while_only_injects (fuel : nat) (origin : Conn) (msg : option Msg) :
  maintains only_injects (Luc.while_msg P W time items fuel origin msg).
Proof.
  revert msg. induction fuel as [|fuel IH]; intros [m|]; simpl;
    try (now intros s Hs).
  apply maintains_bind; [|intros ?].
  - destruct (msg_from_id P (id m)) as [ty|];
      [|apply sent_keeps_only_injects, luc_print_keeps; reflexivity].
    unfold Luc.on_known.
    apply maintains_bind; [apply sent_keeps_only_injects, keeps_lift | intros r].
    destruct (negb _);
      [apply sent_keeps_only_injects, keeps_raise
      | apply handle_message_only_injects].
  - apply maintains_bind; [|intros ?; apply IH].
    apply sent_keeps_only_injects, luc_pull_keeps. intros b s. now destruct origin.
Qed.
End LucSends.

(** X19: [LucInjector.handle] first forwards the chunk, unchanged, to the
    other socket; whatever it sends after that, through the automation, goes
    to the server.  Nothing but forwarded chunks ever reaches the client,
    and the forwarding does not wait for the parsing. *)
Theorem luc_forwards_then_injects_toward_server
  (P : Protocol) (W : World) (time : nat -> float) (items : list Z)
  (fuel : nat) (d : bytes) (origin : Conn) (s : Luc.State) :
  match Luc.handle P W time items fuel d origin s with
  | Ret _ s' | Raise _ s' =>
      exists tail,
        Luc.sent s' = Luc.sent s ++ (other origin, d) :: tail
        /\ Forall (fun x => fst x = coSer) tail
  | OutOfFuel => True
  end.
Proof.
  unfold Luc.handle. unfold bind at 1. unfold Luc.sendall at 1. unfold modify at 1.
  set (s1 := Luc.mk _ _ _ _ _ _ _ _ _ _ _).
  assert (H : maintains (only_injects (Luc.sent s ++ [(other origin, d)]))
                (modify (fun s0 => Luc.set_buf origin (Luc.buf origin s0 ++ d) s0) ;;
                 msg <- Luc.pull P origin ;;
                 Luc.while_msg P W time items fuel origin msg)).
  { apply maintains_bind; [|intros ?].
    { apply sent_keeps_only_injects, keeps_modify. intros s0. now destruct origin. }
    apply maintains_bind; [|intros ?; apply while_only_injects].
    apply sent_keeps_only_injects, luc_pull_keeps. intros b s0. now destruct origin. }
  specialize (H s1 (extended_refl _)).
  destruct (bind _ _ s1) as [[] s'|e s'|]; auto;
    destruct H as (tail & Hsent & Htail); exists tail;
    rewrite Hsent, <- app_assoc; auto.
Qed.
